(** * Object detection API: the extraction step and the HTTP handler

    A shallow embedding of
      - [backend/object_detection/qwen.py]: [parse_objects_from_response],
        [ObjectDetectionResult], [run_object_detection];
      - [backend/api/main.py]: [ObjectDetectionRequest],
        [ObjectDetectionResponse], [detect_objects];
    together with models of the library functions they call: [re.search] on
    the two patterns of the extraction step, [json.loads], the validation
    pydantic runs when a result model is built, and [try]/[except]/[finally].

    Python [str] values are sequences of Unicode code points.  Functions
    that touch the outside world (temporary files, the model library) are
    written in a state-and-exception monad over a [world].  Console output
    ([print]) is not part of the model, and neither are the resource limits
    of the interpreter (recursion depth, memory). *)

From Stdlib Require Import ZArith NArith List String Ascii Lia SpecFloat.
From stdpp Require Import gmap.

Set Default Proof Using "Type".
Open Scope N_scope.
Open Scope list_scope.

(** ** Python strings *)

Definition char := N.
Definition str := list char.
Definition bytes := list N.

Definition ch (a : ascii) : char := N_of_ascii a.
Arguments ch a%_char : simpl never.

(** The double quote and the backslash. *)
Definition dquote : char := 34.
Definition bslash : char := 92.

(** [cp "text"] is the Python string with the code points of [text]. *)
Fixpoint cp (s : string) : str :=
  match s with
  | EmptyString => []
  | String a s' => ch a :: cp s'
  end.
Arguments cp s%_string.

(** [s.startswith(prefix)] *)
Fixpoint startswith (prefix s : str) : bool :=
  match prefix, s with
  | [], _ => true
  | p :: prefix', c :: s' => (p =? c) && startswith prefix' s'
  | _ :: _, [] => false
  end.
Arguments startswith : simpl never.

Fixpoint digits_of_uint (d : Decimal.uint) : str :=
  match d with
  | Decimal.Nil => []
  | Decimal.D0 d => ch "0" :: digits_of_uint d
  | Decimal.D1 d => ch "1" :: digits_of_uint d
  | Decimal.D2 d => ch "2" :: digits_of_uint d
  | Decimal.D3 d => ch "3" :: digits_of_uint d
  | Decimal.D4 d => ch "4" :: digits_of_uint d
  | Decimal.D5 d => ch "5" :: digits_of_uint d
  | Decimal.D6 d => ch "6" :: digits_of_uint d
  | Decimal.D7 d => ch "7" :: digits_of_uint d
  | Decimal.D8 d => ch "8" :: digits_of_uint d
  | Decimal.D9 d => ch "9" :: digits_of_uint d
  end.

(** [str(n)] for an [int] *)
Definition str_of_nat (n : nat) : str := digits_of_uint (Nat.to_uint n).

Definition str_of_Z (z : Z) : str :=
  match z with
  | Z0 => cp "0"
  | Zpos p => digits_of_uint (Pos.to_uint p)
  | Zneg p => ch "-" :: digits_of_uint (Pos.to_uint p)
  end.

(** ** Exceptions

    The exception classes that occur in the two modules.  All of them are
    subclasses of [Exception]; [JSONDecodeError] and pydantic's
    [ValidationError] are subclasses of [ValueError], which matters only for
    an [except ValueError] clause, and the code has none.  [LibraryError]
    stands for any other exception class a library raises. *)

Inductive exn :=
| HTTPException (status_code : Z) (detail : str)
| JSONDecodeError (msg : str)
| AttributeError (msg : str)
| ValueError (msg : str)
| ValidationError (msg : str)
| LibraryError (cls : str) (msg : str).

(** [str(e)].  The line and column that [JSONDecodeError] appends to its
    message are left out: the only handler of that class discards it. *)
Definition exn_str (e : exn) : str :=
  match e with
  | HTTPException status_code detail => str_of_Z status_code ++ cp ": " ++ detail
  | JSONDecodeError msg => msg
  | AttributeError msg => msg
  | ValueError msg => msg
  | ValidationError msg => msg
  | LibraryError _ msg => msg
  end.

Inductive result (A : Type) :=
| Ok (a : A)
| Raise (e : exn).
Arguments Ok {A} a.
Arguments Raise {A} e.

(** ** Regular expressions: [re.search] on the patterns of the extraction step *)

Module Re.

(** A set of characters: a literal, [.] under [re.DOTALL], [.] without the
    flag, and [\s]. *)
Inductive charset :=
| Exactly (c : char)
| AnyChar
| NotNewline
| Whitespace.

(** [\s] on a [str] pattern: the characters for which [str.isspace()] holds. *)
Definition is_whitespace (c : char) : bool :=
  ((9 <=? c) && (c <=? 13)) || ((28 <=? c) && (c <=? 32))
  || (c =? 133) || (c =? 160) || (c =? 5760)
  || ((8192 <=? c) && (c <=? 8202))
  || (c =? 8232) || (c =? 8233) || (c =? 8239) || (c =? 8287) || (c =? 12288).

Definition in_charset (cs : charset) (c : char) : bool :=
  match cs with
  | Exactly c' => c' =? c
  | AnyChar => true
  | NotNewline => negb (c =? 10)
  | Whitespace => is_whitespace c
  end.

(** The fragment of the pattern language the two patterns use: repetition is
    applied to single characters only, and there is at most one capturing
    group. *)
Inductive regex :=
| Empty
| Atom (cs : charset)
| Star (cs : charset)        (* cs*   greedy *)
| LazyStar (cs : charset)    (* cs*?  non-greedy *)
| Seq (r1 r2 : regex)
| Group (r : regex).         (* ( r ), group 1 *)

Fixpoint literal (s : str) : regex :=
  match s with
  | [] => Empty
  | c :: s' => Seq (Atom (Exactly c)) (literal s')
  end.

(** r"```json\s*(\[.*?\])\s*```" compiled with [re.DOTALL] *)
Definition fenced_pattern : regex :=
  Seq (literal (cp "```json"))
 (Seq (Star Whitespace)
 (Seq (Group (Seq (Atom (Exactly (ch "[")))
             (Seq (LazyStar AnyChar)
                  (Atom (Exactly (ch "]"))))))
 (Seq (Star Whitespace)
      (literal (cp "```"))))).

(** r"\[.*?\]" compiled without flags *)
Definition bare_pattern : regex :=
  Seq (Atom (Exactly (ch "[")))
 (Seq (LazyStar NotNewline)
      (Atom (Exactly (ch "]")))).

Section Backtracking.
Context {R : Type}.

(** Greedy repetition: take as many characters as possible, give one back
    at a time while the rest of the pattern fails. *)
Fixpoint greedy_star (cs : charset) (s : str) (k : str -> option R) : option R :=
  match s with
  | c :: s' =>
      if in_charset cs c then
        match greedy_star cs s' k with
        | Some r => Some r
        | None => k s
        end
      else k s
  | [] => k s
  end.

(** Non-greedy repetition: try the rest of the pattern first, take one
    more character each time it fails. *)
Fixpoint lazy_star (cs : charset) (s : str) (k : str -> option R) : option R :=
  match k s with
  | Some r => Some r
  | None =>
      match s with
      | c :: s' => if in_charset cs c then lazy_star cs s' k else None
      | [] => None
      end
  end.

(** [run r g s k]: match [r] at the head of [s], with [g] the text of
    group 1 so far, then continue with [k] on the new group and the rest of
    the input; the first success in backtracking order wins. *)
Fixpoint run (r : regex) (g : option str) (s : str)
         (k : option str -> str -> option R) : option R :=
  match r with
  | Empty => k g s
  | Atom cs =>
      match s with
      | c :: s' => if in_charset cs c then k g s' else None
      | [] => None
      end
  | Star cs => greedy_star cs s (k g)
  | LazyStar cs => lazy_star cs s (k g)
  | Seq r1 r2 => run r1 g s (fun g' s' => run r2 g' s' k)
  | Group r1 =>
      run r1 g s (fun _ s' => k (Some (take (length s - length s') s)) s')
  end.

End Backtracking.

(** A match object: where the match starts, [group(0)] and [group(1)]. *)
Record Match := {
  m_start : nat;
  group0 : str;
  group1 : option str
}.

(** [pattern.match(s)] on the suffix [s] that starts at position [pos] *)
Definition match_at (r : regex) (pos : nat) (s : str) : option Match :=
  run r None s
      (fun g rest =>
         Some {| m_start := pos;
                 group0 := take (length s - length rest) s;
                 group1 := g |}).

Fixpoint search_from (r : regex) (pos : nat) (s : str) : option Match :=
  match match_at r pos s with
  | Some m => Some m
  | None =>
      match s with
      | [] => None
      | _ :: s' => search_from r (S pos) s'
      end
  end.

(** [re.search(pattern, s)]: the match at the leftmost position that has one *)
Definition search (r : regex) (s : str) : option Match := search_from r 0 s.

(** The words a pattern matches, with the text of group 1 before and after. *)
Inductive matches : regex -> option str -> str -> option str -> Prop :=
| matches_Empty g : matches Empty g [] g
| matches_Atom cs c g :
    in_charset cs c = true -> matches (Atom cs) g [c] g
| matches_Star cs w g :
    forallb (in_charset cs) w = true -> matches (Star cs) g w g
| matches_LazyStar cs w g :
    forallb (in_charset cs) w = true -> matches (LazyStar cs) g w g
| matches_Seq r1 r2 g g1 g2 w1 w2 :
    matches r1 g w1 g1 -> matches r2 g1 w2 g2 ->
    matches (Seq r1 r2) g (w1 ++ w2) g2
| matches_Group r g g1 w :
    matches r g w g1 -> matches (Group r) g w (Some w).

(** [occurs r s]: some substring of [s] is matched by [r]. *)
Definition occurs (r : regex) (s : str) : Prop :=
  exists pre w post g, s = pre ++ w ++ post /\ matches r None w g.

End Re.

(** ** [json.loads]

    The decoder of the standard library ([json/decoder.py] and
    [json/scanner.py], which the C accelerator mirrors), with its default
    hooks: [parse_int=int], [parse_float=float], [strict=True].  A
    [JSONDecodeError] carries the fixed part of its message only. *)

Module Json.

(** Python values that [json.loads] builds.  A [float] is kept as the
    text it was converted from ([JFloat t] is [float(t)]); a [dict] is kept
    as its items in insertion order. *)
#[warnings="-register-all"]
Inductive json :=
| JNull
| JBool (b : bool)
| JInt (z : Z)
| JFloat (lexeme : str)
| JStr (s : str)
| JList (l : list json)
| JDict (d : list (str * json)).

Section Dict.
Context {V : Type}.

(** [d[k] = v] *)
Fixpoint dict_set (k : str) (v : V) (d : list (str * V)) : list (str * V) :=
  match d with
  | [] => [(k, v)]
  | (k', v') :: d' =>
      if bool_decide (k = k') then (k, v) :: d'
      else (k', v') :: dict_set k v d'
  end.

(** [dict(pairs)] *)
Definition dict_of_pairs (pairs : list (str * V)) : list (str * V) :=
  fold_left (fun d kv => dict_set (fst kv) (snd kv) d) pairs [].

(** [d.get(k)] *)
Fixpoint dict_get (k : str) (d : list (str * V)) : option V :=
  match d with
  | [] => None
  | (k', v') :: d' => if bool_decide (k = k') then Some v' else dict_get k d'
  end.

End Dict.

(** The outcome of scanning a value at the head of the input. *)
Inductive scan (A : Type) :=
| Scanned (a : A) (rest : str)
| StopIteration                (* no value starts here *)
| Failed (e : exn)
| Exhausted.                   (* the fuel of the scanner ran out *)
Arguments Scanned {A} a rest.
Arguments StopIteration {A}.
Arguments Failed {A} e.
Arguments Exhausted {A}.

(** WHITESPACE: space, tab, line feed and carriage return *)
Definition is_json_ws (c : char) : bool :=
  (c =? 32) || (c =? 9) || (c =? 10) || (c =? 13).

Fixpoint skip_ws (s : str) : str :=
  match s with
  | c :: s' => if is_json_ws c then skip_ws s' else s
  | [] => []
  end.

Definition is_digit (c : char) : bool := (48 <=? c) && (c <=? 57).

Definition hex_val (c : char) : option N :=
  if is_digit c then Some (c - 48)
  else if (97 <=? c) && (c <=? 102) then Some (c - 87)
  else if (65 <=? c) && (c <=? 70) then Some (c - 55)
  else None.

(** [_decode_uXXXX]: the value of four hexadecimal digits *)
Definition hex4 (a b c d : char) : option N :=
  match hex_val a, hex_val b, hex_val c, hex_val d with
  | Some x, Some y, Some z, Some w => Some (((x * 16 + y) * 16 + z) * 16 + w)
  | _, _, _, _ => None
  end.

(** BACKSLASH: the one-character escapes *)
Definition backslash (esc : char) : option char :=
  if esc =? dquote then Some dquote
  else if esc =? bslash then Some bslash
  else if esc =? ch "/" then Some (ch "/")
  else if esc =? ch "b" then Some 8
  else if esc =? ch "f" then Some 12
  else if esc =? ch "n" then Some 10
  else if esc =? ch "r" then Some 13
  else if esc =? ch "t" then Some 9
  else None.

Definition unterminated : exn :=
  JSONDecodeError (cp "Unterminated string starting at").
Definition invalid_uXXXX : exn :=
  JSONDecodeError (cp "Invalid \uXXXX escape").

(** [py_scanstring], from the character after the opening quote; [acc] holds
    the decoded characters so far, last one first. *)
Fixpoint scanstring (s : str) (acc : str) : scan str :=
  match s with
  | [] => Failed unterminated
  | c :: s1 =>
      if c =? dquote then Scanned (rev acc) s1
      else if c =? bslash then
        match s1 with
        | [] => Failed unterminated
        | esc :: s2 =>
            if esc =? ch "u" then
              match s2 with
              | h1 :: h2 :: h3 :: h4 :: s6 =>
                  match hex4 h1 h2 h3 h4 with
                  | None => Failed invalid_uXXXX
                  | Some uni =>
                      if (55296 <=? uni) && (uni <=? 56319)
                         && startswith [bslash; ch "u"] s6 then
                        match s6 with
                        | _ :: _ :: k1 :: k2 :: k3 :: k4 :: s12 =>
                            match hex4 k1 k2 k3 k4 with
                            | None => Failed invalid_uXXXX
                            | Some uni2 =>
                                if (56320 <=? uni2) && (uni2 <=? 57343) then
                                  scanstring s12
                                    (65536 + (N.lor (N.shiftl (uni - 55296) 10)
                                                    (uni2 - 56320)) :: acc)
                                else scanstring s6 (uni :: acc)
                            end
                        | _ => Failed invalid_uXXXX
                        end
                      else scanstring s6 (uni :: acc)
                  end
              | _ => Failed invalid_uXXXX
              end
            else
              match backslash esc with
              | Some c' => scanstring s2 (c' :: acc)
              | None => Failed (JSONDecodeError (cp "Invalid \escape: "))
              end
        end
      else if c <=? 31 then
        Failed (JSONDecodeError (cp "Invalid control character at"))
      else scanstring s1 (c :: acc)
  end.

Fixpoint span_digits (s : str) : str * str :=
  match s with
  | c :: s' =>
      if is_digit c then let (d, r) := span_digits s' in (c :: d, r)
      else ([], s)
  | [] => ([], [])
  end.

(** NUMBER_RE.  Group 1 is an optional minus sign and then either 0 or a
    digit from 1 to 9 with any number of digits after it; group 2, optional,
    is a dot and at least one digit; group 3, optional, is e or E, an
    optional sign and at least one digit. *)
Definition match_integer (s : str) : option (str * str) :=
  let (sign, s1) :=
    match s with
    | c :: s' => if c =? ch "-" then ([c], s') else ([], s)
    | [] => ([], s)
    end in
  match s1 with
  | c :: s2 =>
      if c =? ch "0" then Some (sign ++ [c], s2)
      else if is_digit c then
        let (d, r) := span_digits s2 in Some (sign ++ c :: d, r)
      else None
  | [] => None
  end.

Definition match_frac (s : str) : option (str * str) :=
  match s with
  | c :: s1 =>
      if c =? ch "." then
        match span_digits s1 with
        | ([], _) => None
        | (d, r) => Some (c :: d, r)
        end
      else None
  | [] => None
  end.

Definition match_exp (s : str) : option (str * str) :=
  match s with
  | c :: s1 =>
      if (c =? ch "e") || (c =? ch "E") then
        let (sign, s2) :=
          match s1 with
          | c' :: s' =>
              if (c' =? ch "-") || (c' =? ch "+") then ([c'], s') else ([], s1)
          | [] => ([], s1)
          end in
        match span_digits s2 with
        | ([], _) => None
        | (d, r) => Some (c :: sign ++ d, r)
        end
      else None
  | [] => None
  end.

Definition match_number (s : str)
  : option (str * option str * option str * str) :=
  match match_integer s with
  | None => None
  | Some (integer, r1) =>
      let (frac, r2) :=
        match match_frac r1 with
        | Some (f, r) => (Some f, r)
        | None => (None, r1)
        end in
      let (exp, r3) :=
        match match_exp r2 with
        | Some (e, r) => (Some e, r)
        | None => (None, r2)
        end in
      Some (integer, frac, exp, r3)
  end.

(** [sys.get_int_max_str_digits()], the default of the interpreter *)
Definition int_max_str_digits : nat := 4300.

Definition Z_of_digits (d : str) : Z :=
  fold_left (fun acc c => (acc * 10 + Z.of_N (c - 48))%Z) d 0%Z.

(** [int(integer)] on a text that group 1 of NUMBER_RE matched.  Since
    Python 3.11 (and the security releases of 3.7 to 3.10) the conversion
    refuses a text with more than [int_max_str_digits] digits with a plain
    [ValueError]. *)
Definition parse_int (integer : str) : result Z :=
  let (negative, digits) :=
    match integer with
    | c :: d => if c =? ch "-" then (true, d) else (false, integer)
    | [] => (false, integer)
    end in
  if (int_max_str_digits <? length digits)%nat then
    Raise (ValueError
             (cp "Exceeds the limit (" ++ str_of_nat int_max_str_digits
              ++ cp " digits) for integer string conversion: value has "
              ++ str_of_nat (length digits)
              ++ cp " digits; use sys.set_int_max_str_digits() to increase the limit"))
  else Ok (if negative then (- Z_of_digits digits)%Z else Z_of_digits digits).

Definition expecting_value : exn := JSONDecodeError (cp "Expecting value").
Definition expecting_comma : exn :=
  JSONDecodeError (cp "Expecting ',' delimiter").
Definition expecting_colon : exn :=
  JSONDecodeError (cp "Expecting ':' delimiter").
Definition expecting_name : exn :=
  JSONDecodeError (cp "Expecting property name enclosed in double quotes").

(** [scan_once] is [_scan_once] of [py_make_scanner]; [array_loop] and
    [object_loop] are the [while True] loops of [JSONArray] and [JSONObject].
    The look-ahead code of the two functions that skips white space in
    several steps is written with [skip_ws].  [fuel] bounds the number of
    nested calls and loop rounds together. *)
Fixpoint scan_once (fuel : nat) (s : str) : scan json :=
  match fuel with
  | O => Exhausted
  | S fuel' =>
      match s with
      | [] => StopIteration
      | nextchar :: s' =>
          if nextchar =? dquote then
            match scanstring s' [] with
            | Scanned v r => Scanned (JStr v) r
            | StopIteration => StopIteration
            | Failed e => Failed e
            | Exhausted => Exhausted
            end
          else if nextchar =? ch "{" then
            match skip_ws s' with
            | c :: r =>
                if c =? ch "}" then Scanned (JDict []) r
                else if c =? dquote then object_loop fuel' r []
                else Failed expecting_name
            | [] => Failed expecting_name
            end
          else if nextchar =? ch "[" then
            match skip_ws s' with
            | c :: r =>
                if c =? ch "]" then Scanned (JList []) r
                else array_loop fuel' (c :: r) []
            | [] => array_loop fuel' [] []
            end
          else if startswith (cp "null") s then Scanned JNull (drop 4 s)
          else if startswith (cp "true") s then Scanned (JBool true) (drop 4 s)
          else if startswith (cp "false") s then Scanned (JBool false) (drop 5 s)
          else
            match match_number s with
            | Some (integer, None, None, r) =>
                match parse_int integer with
                | Ok z => Scanned (JInt z) r
                | Raise e => Failed e
                end
            | Some (integer, frac, exp, r) =>
                Scanned (JFloat (integer ++ default [] frac ++ default [] exp)) r
            | None =>
                if startswith (cp "NaN") s then
                  Scanned (JFloat (cp "NaN")) (drop 3 s)
                else if startswith (cp "Infinity") s then
                  Scanned (JFloat (cp "Infinity")) (drop 8 s)
                else if startswith (cp "-Infinity") s then
                  Scanned (JFloat (cp "-Infinity")) (drop 9 s)
                else StopIteration
            end
      end
  end

with array_loop (fuel : nat) (s : str) (values : list json) : scan json :=
  match fuel with
  | O => Exhausted
  | S fuel' =>
      match scan_once fuel' s with
      | Scanned value r =>
          match skip_ws r with
          | c :: r' =>
              if c =? ch "]" then Scanned (JList (rev (value :: values))) r'
              else if c =? ch "," then
                array_loop fuel' (skip_ws r') (value :: values)
              else Failed expecting_comma
          | [] => Failed expecting_comma
          end
      | StopIteration => Failed expecting_value
      | Failed e => Failed e
      | Exhausted => Exhausted
      end
  end

with object_loop (fuel : nat) (s : str) (pairs : list (str * json)) : scan json :=
  match fuel with
  | O => Exhausted
  | S fuel' =>
      match scanstring s [] with
      | Scanned key r =>
          match skip_ws r with
          | c :: r1 =>
              if c =? ch ":" then
                match scan_once fuel' (skip_ws r1) with
                | Scanned value r2 =>
                    match skip_ws r2 with
                    | c' :: r3 =>
                        if c' =? ch "}" then
                          Scanned (JDict (dict_of_pairs (rev ((key, value) :: pairs)))) r3
                        else if c' =? ch "," then
                          match skip_ws r3 with
                          | q :: r4 =>
                              if q =? dquote then
                                object_loop fuel' r4 ((key, value) :: pairs)
                              else Failed expecting_name
                          | [] => Failed expecting_name
                          end
                        else Failed expecting_comma
                    | [] => Failed expecting_comma
                    end
                | StopIteration => Failed expecting_value
                | Failed e => Failed e
                | Exhausted => Exhausted
                end
              else Failed expecting_colon
          | [] => Failed expecting_colon
          end
      | StopIteration => Failed expecting_value
      | Failed e => Failed e
      | Exhausted => Exhausted
      end
  end.

(** [json.loads(s)] for a [str]: [JSONDecoder.decode], after the check for a
    byte order mark.  The fuel given to the scanner is enough for every
    input ([loads_fuel_suffices] below), so the last case never applies:
    the model has no bound on the depth of nesting.  CPython has one, the
    recursion limit of the interpreter at the point of the call, and raises
    a [RecursionError] on a text nested deeper; on such a text the model
    differs from the interpreter.  The theorems about the extraction step
    below take what [loads] makes of the selected text as given, or compute
    it on texts nested a few levels deep. *)
Definition loads (s : str) : result json :=
  if startswith [65279] s then
    Raise (JSONDecodeError (cp "Unexpected UTF-8 BOM (decode using utf-8-sig)"))
  else
    match scan_once (2 * length s + 1) (skip_ws s) with
    | Scanned obj rest =>
        match skip_ws rest with
        | [] => Ok obj
        | _ :: _ => Raise (JSONDecodeError (cp "Extra data"))
        end
    | StopIteration => Raise expecting_value
    | Failed e => Raise e
    | Exhausted =>
        Raise (LibraryError (cp "RecursionError")
                            (cp "maximum recursion depth exceeded"))
    end.

End Json.

(** ** The outside world

    The handler and the detection step act on temporary files and call into
    Pillow and the model library.  A [world] holds the temporary files and
    a trace of the calls made so far, oldest first.  The trace is there to
    state what was called, with which arguments and in which order; the code
    never reads it.  Reading the upload and creating, writing and unlinking
    a temporary file work as documented: the model has no full disk and no
    missing permission. *)

(** A floating-point number ([float]): a binary64 value. *)
Definition float := spec_float.

(** A [PIL.Image.Image], as far as the code looks at it. *)
Record Image := {
  format : option str;
  width : Z;
  height : Z
}.

(** The chat messages handed to [apply_chat_template]. *)
Inductive content_part :=
| ImagePart (image : Image)
| TextPart (text : str).

Inductive message_content :=
| Text (text : str)
| Parts (parts : list content_part).

Record message := {
  role : str;
  content : message_content
}.

(** The calls the trace records: the two file operations of the handler,
    its call of the detection step, and the calls of the model library. *)
Inductive event :=
| TempFileWritten (path : str) (data : bytes)
| FileUnlinked (path : str)
| DetectionCalled (image : Image) (prompt : str) (max_tokens : Z)
                  (temperature : float)
| LoadCalled (model : str)
| LoadConfigCalled (model : str)
| ChatTemplateCalled (messages : list message)
| GenerateCalled (max_tokens : Z) (temperature : float).

Record world := {
  files : gmap str bytes;
  trace : list event
}.

(** The libraries the code is linked against.  What a call returns, or the
    exception it raises, is up to the library: the code is verified against
    every instance.  [tmp_name] is the name [NamedTemporaryFile] picks for a
    new file with the given suffix; the function never picks the name of an
    existing file. *)
Class Libraries := {
  Model : Type;
  Processor : Type;
  Config : Type;
  Prompt : Type;
  GenerationResult : Type;
  (* mlx_vlm *)
  load : str -> result (Model * Processor);
  load_config : str -> result Config;
  apply_chat_template : Processor -> Config -> list message -> result Prompt;
  generate : Model -> Processor -> Prompt -> Z -> float -> result GenerationResult;
  response_str : GenerationResult -> str;
  (* PIL *)
  Image_open : bytes -> result Image;
  Image_verify : Image -> result unit;
  (* pydantic: the text of a ValidationError for the field [objects] *)
  validation_error_str : Json.json -> str;
  (* tempfile *)
  tmp_name : gmap str bytes -> str -> str;
  tmp_name_fresh : forall fs suffix, fs !! tmp_name fs suffix = None
}.

(** Computations that read and change the world and may raise. *)
Definition M (A : Type) : Type := world -> result A * world.

Definition ret {A} (a : A) : M A := fun w => (Ok a, w).

Definition raise {A} (e : exn) : M A := fun w => (Raise e, w).

Definition bind {A B} (m : M A) (f : A -> M B) : M B :=
  fun w =>
    match m w with
    | (Ok a, w') => f a w'
    | (Raise e, w') => (Raise e, w')
    end.

Definition lift {A} (r : result A) : M A := fun w => (r, w).

Definition emit (ev : event) : M unit :=
  fun w => (Ok tt, {| files := files w; trace := trace w ++ [ev] |}).

(** [try: m  except Exception as e: h e].  A handler for some classes only
    re-raises the others. *)
Definition try_except {A} (m : M A) (h : exn -> M A) : M A :=
  fun w =>
    match m w with
    | (Ok a, w') => (Ok a, w')
    | (Raise e, w') => h e w'
    end.

(** [try: m  finally: fin].  The clean-up runs however [m] ends; when it
    raises, its exception replaces the outcome of [m]. *)
Definition try_finally {A} (m : M A) (fin : M unit) : M A :=
  fun w =>
    match m w with
    | (r, w') =>
        match fin w' with
        | (Ok _, w'') => (r, w'')
        | (Raise e, w'') => (Raise e, w'')
        end
    end.

Declare Scope py_scope.
Delimit Scope py_scope with py.
Notation "x <- m ;; k" := (bind m (fun x => k))
  (at level 100, m at next level, right associativity) : py_scope.
Notation "m ;; k" := (bind m (fun _ => k))
  (at level 100, right associativity) : py_scope.

(** ** [object_detection/qwen.py] *)

Module Qwen.
Import Json.

(** [except (json.JSONDecodeError, AttributeError)] *)
Definition is_decode_or_attribute_error (e : exn) : bool :=
  match e with
  | JSONDecodeError _ | AttributeError _ => true
  | _ => false
  end.

(** [try: body  except (json.JSONDecodeError, AttributeError): return []] *)
Definition or_empty_list (body : result json) : result json :=
  match body with
  | Ok v => Ok v
  | Raise e => if is_decode_or_attribute_error e then Ok (JList []) else Raise e
  end.

(** [json.loads(json_match.group(n))]; a group that took no part in the
    match is [None], which [json.loads] refuses with a [TypeError]. *)
Definition loads_group (g : option str) : result json :=
  match g with
  | Some json_str => loads json_str
  | None =>
      Raise (LibraryError (cp "TypeError")
               (cp "the JSON object must be str, bytes or bytearray, not NoneType"))
  end.

Definition parse_objects_from_response (response_text : str) : result json :=
  or_empty_list
    match Re.search Re.fenced_pattern response_text with
    | Some json_match => loads_group (Re.group1 json_match)
    | None =>
        match Re.search Re.bare_pattern response_text with
        | Some json_match => loads_group (Some (Re.group0 json_match))
        | None => Ok (JList [])
        end
    end.

(** [ObjectDetectionResult]; [objects] is an [Optional[List[Dict[str, Any]]]]. *)
Record ObjectDetectionResult := {
  success : bool;
  objects : option (list (list (str * json)));
  response_text : option str;
  error_message : option str
}.

Definition as_dict (v : json) : option (list (str * json)) :=
  match v with
  | JDict d => Some d
  | _ => None
  end.

(** The validation pydantic runs on the field [objects]: the value has to
    be a list, and each item of it a [dict]. *)
Definition validate_objects (v : json) : option (list (list (str * json))) :=
  match v with
  | JList l => mapM as_dict l
  | _ => None
  end.

Definition default_prompt : str :=
  cp "detect all the objects like sunglasses, shirts, trousers or watches in the image".

Definition default_model : str := cp "mlx-community/Qwen2.5-VL-7B-Instruct-4bit".

(** The default of [temperature], 0.1 *)
Definition default_temperature : float := S754_finite false 7205759403792794 (-56).

Definition newline : str := [10].

Definition system_prompt : str :=
  concat (map (fun line => newline ++ line) [
    cp "                    You are a helpful assistant to detect objects in images.";
    cp "                    Detect all objects in the image and return their locations ";
    cp "                    and labels in the form of coordinates.";
    cp "                    Be as precise as possible.";
    cp "                    If you are not sure about the object or its position return nothing.";
    cp "                    Response format:";
    cp "                    ```json";
    cp "                    [{";
    cp "                        " ++ dquote :: cp "object" ++ dquote :: cp ": "
       ++ dquote :: cp "object_name" ++ dquote :: cp ",";
    cp "                        " ++ dquote :: cp "bbox_2d" ++ dquote
       :: cp ": [xmin, ymin, xmax, ymax]";
    cp "                    }, ...]";
    cp "                    ```";
    cp "                "
  ]).

Definition messages_for (image : Image) (prompt : str) : list message :=
  [ {| role := cp "system"; content := Text system_prompt |};
    {| role := cp "user";
       content := Parts [ImagePart image; TextPart prompt] |} ].

Section WithLibraries.
Context `{Libraries}.

(** [ObjectDetectionResult(success=.., objects=.., response_text=..,
    error_message=..)] *)
Definition new_ObjectDetectionResult (success : bool) (objects : option json)
           (response_text error_message : option str)
  : result ObjectDetectionResult :=
  match objects with
  | None =>
      Ok {| success := success; objects := None;
            response_text := response_text; error_message := error_message |}
  | Some v =>
      match validate_objects v with
      | Some l =>
          Ok {| success := success; objects := Some l;
                response_text := response_text; error_message := error_message |}
      | None => Raise (ValidationError (validation_error_str v))
      end
  end.

(** [return ObjectDetectionResult(success=False, error_message=..)] *)
Definition failure (error_message : str) : M ObjectDetectionResult :=
  lift (new_ObjectDetectionResult false None None (Some error_message)).

Definition run_object_detection (image : Image) (prompt : str)
           (max_tokens : Z) (temperature : float) (model : str)
  : M ObjectDetectionResult :=
  try_except
    (loaded <-
       try_except
         (emit (LoadCalled model) ;;
          loaded <- lift (load model) ;;
          ret (inr loaded))
         (fun e => ret (inl e)) ;;
     match loaded with
     | inl e => failure (cp "Error loading model: " ++ exn_str e)
     | inr (model_obj, processor) =>
         let messages := messages_for image prompt in
         emit (LoadConfigCalled model) ;;
         config <- lift (load_config model) ;;
         emit (ChatTemplateCalled messages) ;;
         prompt_text <- lift (apply_chat_template processor config messages) ;;
         generated <-
           try_except
             (emit (GenerateCalled max_tokens temperature) ;;
              response <- lift (generate model_obj processor prompt_text
                                         max_tokens temperature) ;;
              ret (inr response))
             (fun e => ret (inl e)) ;;
         match generated with
         | inl e => failure (cp "Error during generation: " ++ exn_str e)
         | inr response =>
             let response_text := response_str response in
             objects <- lift (parse_objects_from_response response_text) ;;
             lift (new_ObjectDetectionResult true (Some objects)
                                             (Some response_text) None)
         end
     end)%py
    (fun e => failure (cp "Error during object detection: " ++ exn_str e)).

End WithLibraries.

End Qwen.

(** ** [api/main.py] *)

Module Api.

(** [ObjectDetectionRequest]: every field has a default. *)
Record ObjectDetectionRequest := {
  prompt : str;
  max_tokens : Z;
  temperature : float
}.

(** The default of [temperature], 0.7 *)
Definition default_temperature : float := S754_finite false 6305039478318694 (-53).

(** [ObjectDetectionRequest(...)], each keyword argument optional *)
Definition new_ObjectDetectionRequest (prompt : option str)
           (max_tokens : option Z) (temperature : option float)
  : ObjectDetectionRequest :=
  {| prompt := default Qwen.default_prompt prompt;
     max_tokens := default 1000%Z max_tokens;
     temperature := default default_temperature temperature |}.

(** [ObjectDetectionResponse] *)
Record ObjectDetectionResponse := {
  success : bool;
  objects : option (list (list (str * Json.json)));
  response_text : option str;
  error_message : option str
}.

(** An uploaded file: the content type the client declared, if any, and the
    bytes that [file.read()] returns. *)
Record UploadFile := {
  content_type : option str;
  file_bytes : bytes
}.

(** [not file.content_type or not file.content_type.startswith("image/")] *)
Definition not_an_image (file : UploadFile) : bool :=
  match content_type file with
  | None => true
  | Some [] => true
  | Some t => negb (startswith (cp "image/") t)
  end.

(** [await file.read()] *)
Definition read (file : UploadFile) : M bytes := ret (file_bytes file).

(** [os.path.exists(path)] and [os.unlink(path)] *)

Definition os_path_exists (path : str) : M bool :=
  fun w => (Ok (bool_decide (is_Some (files w !! path))), w).

Definition os_unlink (path : str) : M unit :=
  fun w =>
    match files w !! path with
    | Some _ =>
        (Ok tt,
         {| files := delete path (files w);
            trace := trace w ++ [FileUnlinked path] |})
    | None =>
        (Raise (LibraryError (cp "FileNotFoundError")
                             (cp "[Errno 2] No such file or directory")), w)
    end.

Section Handler.
Context `{Libraries}.

(** [with tempfile.NamedTemporaryFile(delete=False, suffix=..) as tmp_file:
    tmp_file.write(data)], giving [tmp_file.name] *)
Definition NamedTemporaryFile_write (suffix : str) (data : bytes) : M str :=
  fun w =>
    let path := tmp_name (files w) suffix in
    (Ok path,
     {| files := <[path := data]> (files w);
        trace := trace w ++ [TempFileWritten path data] |}).

(** The handler, with the detection step it calls as a parameter. *)
Definition detect_objects_with
           (run_object_detection :
              Image -> str -> Z -> float -> M Qwen.ObjectDetectionResult)
           (file : UploadFile) (request : option ObjectDetectionRequest)
  : M ObjectDetectionResponse :=
  let request := default (new_ObjectDetectionRequest None None None) request in
  try_except
    ((if not_an_image file
      then raise (HTTPException 400 (cp "File must be an image"))
      else ret tt) ;;
     image_data <- read file ;;
     image <-
       try_except
         (image <- lift (Image_open image_data) ;;
          lift (Image_verify image) ;;
          ret image)
         (fun e =>
            raise (HTTPException 400 (cp "Invalid image file: " ++ exn_str e))) ;;
     temp_image_path <- NamedTemporaryFile_write (cp ".jpg") image_data ;;
     try_finally
       (emit (DetectionCalled image (prompt request) (max_tokens request)
                              (temperature request)) ;;
        result <- run_object_detection image (prompt request)
                    (max_tokens request) (temperature request) ;;
        if Qwen.success result then
          ret {| success := true;
                 objects := Qwen.objects result;
                 response_text := Qwen.response_text result;
                 error_message := None |}
        else
          ret {| success := false;
                 objects := None;
                 response_text := None;
                 error_message := Qwen.error_message result |})
       (present <- os_path_exists temp_image_path ;;
        if present then os_unlink temp_image_path else ret tt))%py
    (fun e =>
       match e with
       | HTTPException _ _ => raise e
       | _ =>
           ret {| success := false;
                  objects := None;
                  response_text := None;
                  error_message :=
                    Some (cp "Internal server error: " ++ exn_str e) |}
       end).

(** [detect_objects]: the handler of POST /objectdetection.  It leaves
    [model] of [run_object_detection] at its default. *)
Definition detect_objects (file : UploadFile)
           (request : option ObjectDetectionRequest)
  : M ObjectDetectionResponse :=
  detect_objects_with
    (fun image prompt max_tokens temperature =>
       Qwen.run_object_detection image prompt max_tokens temperature
                                 Qwen.default_model)
    file request.

End Handler.

(** The status line FastAPI sends: 200 with the returned model, the status
    of a raised [HTTPException], 500 for any other exception. *)
Definition http_status (outcome : result ObjectDetectionResponse) : Z :=
  match outcome with
  | Ok _ => 200
  | Raise (HTTPException status_code _) => status_code
  | Raise _ => 500
  end%Z.

End Api.

(** ** What the extraction step looks for *)

Module Fence.

Definition all_whitespace (w : str) : bool := forallb Re.is_whitespace w.

Definition no_newline (w : str) : bool := forallb (fun c => negb (c =? 10)) w.

Definition no_closing_bracket (w : str) : bool :=
  forallb (fun c => negb (c =? ch "]")) w.

(** [t] is a bracket-delimited text: an opening bracket, any characters,
    a closing bracket. *)
Definition bracketed (t : str) : Prop :=
  exists body, t = ch "[" :: body ++ [ch "]"].

(** After the prefix [pre], [s] holds a fence opened by ```json, white space,
    the bracket-delimited text [t], white space and the closing ```. *)
Definition fenced_at (s pre t : str) : Prop :=
  bracketed t /\
  exists ws1 ws2 post,
    s = pre ++ cp "```json" ++ ws1 ++ t ++ ws2 ++ cp "```" ++ post /\
    all_whitespace ws1 = true /\ all_whitespace ws2 = true.

(** After the prefix [pre], [s] holds the bracket-delimited text [t], all
    on one line. *)
Definition bare_at (s pre t : str) : Prop :=
  exists body post,
    t = ch "[" :: body ++ [ch "]"] /\ s = pre ++ t ++ post /\
    no_newline body = true.

Definition has_fenced_array (s : str) : Prop := exists pre t, fenced_at s pre t.

Definition has_bare_array (s : str) : Prop := exists pre t, bare_at s pre t.

(** [t] is the fenced array the first strategy picks: it stands in the
    leftmost fence of [s] that holds a bracketed text, and it is the
    shortest bracketed text there. *)
Definition first_fenced_array (s t : str) : Prop :=
  exists pre,
    fenced_at s pre t /\
    (forall pre' t', fenced_at s pre' t' -> (length pre <= length pre')%nat) /\
    (forall t', fenced_at s pre t' -> (length t <= length t')%nat).

(** [t] is the text the second strategy picks: the leftmost bracketed text
    on one line, up to its first closing bracket. *)
Definition first_bare_array (s t : str) : Prop :=
  exists pre body,
    t = ch "[" :: body ++ [ch "]"] /\
    bare_at s pre t /\
    no_closing_bracket body = true /\
    (forall pre' t', bare_at s pre' t' -> (length pre <= length pre')%nat).

(** The text handed to [json.loads]: the first strategy's when the response
    has a fenced array, the second strategy's when it has none. *)
Definition selected (s t : str) : Prop :=
  first_fenced_array s t \/ (~ has_fenced_array s /\ first_bare_array s t).

End Fence.

(** ** The decoder's guarantees *)

Module Decoder.
Import Json.

(** The exceptions the decoder raises by itself. *)
Definition decoder_error (e : exn) : bool :=
  match e with
  | JSONDecodeError _ | ValueError _ => true
  | _ => false
  end.

(** What one scanning step guarantees: a scanned value leaves a strictly
    shorter rest, and a failure is an exception of the decoder's own. *)
Definition shrinks (s : str) (o : scan json) : Prop :=
  match o with
  | Scanned _ r => (length r < length s)%nat
  | Failed e => decoder_error e = true
  | StopIteration | Exhausted => True
  end.

End Decoder.

(** ** Detection records *)

Module Record.
Import Json.

Definition is_number (v : json) : bool :=
  match v with
  | JInt _ | JFloat _ => true
  | _ => false
  end.

(** A [{object, bbox_2d}] record: a label and a bounding box of exactly
    four coordinates xmin, ymin, xmax, ymax. *)
Definition is_detection_record (v : json) : bool :=
  match v with
  | JDict d =>
      match dict_get (cp "object") d, dict_get (cp "bbox_2d") d with
      | Some (JStr _), Some (JList [xmin; ymin; xmax; ymax]) =>
          is_number xmin && is_number ymin && is_number xmax && is_number ymax
      | _, _ => false
      end
  | _ => false
  end.

End Record.

(** ** Sample inputs *)

Module Sample.
Import Json.

Definition quoted (s : str) : str := dquote :: s ++ [dquote].

(** The text of one detection record. *)
Definition record_text : str :=
  cp "{" ++ quoted (cp "object") ++ cp ": " ++ quoted (cp "watch") ++ cp ", "
  ++ quoted (cp "bbox_2d") ++ cp ": [10, 20, 30, 40]}".

Definition array_text : str := cp "[" ++ record_text ++ cp "]".

(** A reply with the array on one line and no fence. *)
Definition unfenced_reply : str := cp "Detected: " ++ array_text.

(** What the second pattern finds in it. *)
Definition truncated_text : str :=
  cp "[{" ++ quoted (cp "object") ++ cp ": " ++ quoted (cp "watch") ++ cp ", "
  ++ quoted (cp "bbox_2d") ++ cp ": [10, 20, 30, 40]".

(** A reply with the array spread over three lines and no fence. *)
Definition multiline_reply : str :=
  cp "[" ++ [10] ++ cp "  " ++ record_text ++ [10] ++ cp "]".

(** A reply as the system prompt asks for it. *)
Definition fenced_reply : str :=
  cp "```json" ++ [10] ++ array_text ++ [10] ++ cp "```".

(** An array whose only item is an integer of 4301 digits. *)
Definition long_integer_reply : str :=
  ch "[" :: repeat (ch "1") 4301 ++ [ch "]"].

Definition watch : list (str * json) :=
  [(cp "object", JStr (cp "watch"));
   (cp "bbox_2d", JList [JInt 10; JInt 20; JInt 30; JInt 40])].

Definition png : Image := {| format := Some (cp "PNG"); width := 640; height := 480 |}.

(** Libraries that accept every non-empty upload as an image and answer
    every prompt with [fenced_reply]. *)
Program Definition libraries : Libraries :=
  {| Model := unit;
     Processor := unit;
     Config := unit;
     Prompt := list message;
     GenerationResult := str;
     load := fun _ => Ok (tt, tt);
     load_config := fun _ => Ok tt;
     apply_chat_template := fun _ _ messages => Ok messages;
     generate := fun _ _ _ _ _ => Ok fenced_reply;
     response_str := fun response => response;
     Image_open := fun data =>
       match data with
       | [] => Raise (LibraryError (cp "UnidentifiedImageError")
                                   (cp "cannot identify image file"))
       | _ :: _ => Ok png
       end;
     Image_verify := fun _ => Ok tt;
     validation_error_str := fun _ => cp "1 validation error for ObjectDetectionResult";
     tmp_name := fun fs _ => fresh (dom fs) |}.
Next Obligation. intros fs suffix. simpl. apply not_elem_of_dom, is_fresh. Qed.

(** Libraries whose model cannot be loaded. *)
Program Definition broken_libraries : Libraries :=
  {| Model := unit;
     Processor := unit;
     Config := unit;
     Prompt := list message;
     GenerationResult := str;
     load := fun _ => Raise (LibraryError (cp "OSError") (cp "model not found"));
     load_config := fun _ => Ok tt;
     apply_chat_template := fun _ _ messages => Ok messages;
     generate := fun _ _ _ _ _ => Ok fenced_reply;
     response_str := fun response => response;
     Image_open := fun _ => Ok png;
     Image_verify := fun _ => Ok tt;
     validation_error_str := fun _ => cp "1 validation error for ObjectDetectionResult";
     tmp_name := fun fs _ => fresh (dom fs) |}.
Next Obligation. intros fs suffix. simpl. apply not_elem_of_dom, is_fresh. Qed.

Definition upload : Api.UploadFile :=
  {| Api.content_type := Some (cp "image/png"); Api.file_bytes := [137; 80; 78; 71] |}.

Definition text_upload : Api.UploadFile :=
  {| Api.content_type := Some (cp "text/plain"); Api.file_bytes := [104; 105] |}.

Definition empty_world : world := {| files := ∅; trace := [] |}.

End Sample.

(** [w] with more calls on its trace. *)
Definition add_events (w : world) (evs : list event) : world :=
  {| files := files w; trace := trace w ++ evs |}.

(** ** The handler's contract, in the words of the specification *)

Module Contract.
Import Api.

Section WithLibraries.
Context `{Libraries}.

(** Pillow cannot make an image of the bytes: [Image.open] raises, or
    [verify] does. *)
Definition undecodable (data : bytes) : Prop :=
  (exists e, Image_open data = Raise e) \/
  (exists image e, Image_open data = Ok image /\ Image_verify image = Raise e).

(** The upload passes both checks of the handler, and [image] is what
    Pillow makes of it. *)
Definition validated (file : UploadFile) (image : Image) : Prop :=
  not_an_image file = false /\
  Image_open (file_bytes file) = Ok image /\
  Image_verify image = Ok tt.

(** The name of the temporary file the handler creates in world [w]. *)
Definition temp_path (w : world) : str := tmp_name (files w) (cp ".jpg").

(** The world in which the detection step starts: the upload is in the
    temporary file, and the call is on the trace. *)
Definition at_detection (w : world) (file : UploadFile)
           (request : ObjectDetectionRequest) (image : Image) : world :=
  {| files := <[temp_path w := file_bytes file]> (files w);
     trace := trace w ++
              [TempFileWritten (temp_path w) (file_bytes file);
               DetectionCalled image (prompt request) (max_tokens request)
                               (temperature request)] |}.

(** The world after the clean-up of the handler. *)
Definition cleaned_up (path : str) (w : world) : world :=
  if bool_decide (is_Some (files w !! path)) then
    {| files := delete path (files w);
       trace := trace w ++ [FileUnlinked path] |}
  else w.

End WithLibraries.

(** The two kinds of result of the detection step: a failure carries a
    message and nothing else, a success the objects and the raw text. *)
Definition detection_failure (message : str) : Qwen.ObjectDetectionResult :=
  {| Qwen.success := false;
     Qwen.objects := None;
     Qwen.response_text := None;
     Qwen.error_message := Some message |}.

Definition detection_success (objects : list (list (str * Json.json)))
           (response_text : str) : Qwen.ObjectDetectionResult :=
  {| Qwen.success := true;
     Qwen.objects := Some objects;
     Qwen.response_text := Some response_text;
     Qwen.error_message := None |}.

(** The payload for a result of the detection step. *)
Definition response_of (result : Qwen.ObjectDetectionResult)
  : ObjectDetectionResponse :=
  if Qwen.success result then
    {| success := true;
       objects := Qwen.objects result;
       response_text := Qwen.response_text result;
       error_message := None |}
  else
    {| success := false;
       objects := None;
       response_text := None;
       error_message := Qwen.error_message result |}.

(** The payload for an exception that reaches the outer handler. *)
Definition internal_error (e : exn) : ObjectDetectionResponse :=
  {| success := false;
     objects := None;
     response_text := None;
     error_message := Some (cp "Internal server error: " ++ exn_str e) |}.

(** A success carries the objects and the raw text; a failure carries a
    message that is not empty. *)
Definition well_formed (payload : ObjectDetectionResponse) : Prop :=
  (success payload = true /\
   exists l text, objects payload = Some l /\ response_text payload = Some text) \/
  (success payload = false /\
   exists msg, error_message payload = Some msg /\ msg <> []).

(** The request the handler works with when the client sends none. *)
Definition effective (request : option ObjectDetectionRequest)
  : ObjectDetectionRequest :=
  default (new_ObjectDetectionRequest None None None) request.

End Contract.

(** Closes a goal about one outcome of a scanning step: the outcome shrinks
    the input and is not [Exhausted]. *)
Ltac leaf :=
  split; [first [exact I | assumption | reflexivity
                | simpl; rewrite ?length_drop; simpl in *; lia]
         | first [discriminate | intros _; discriminate]].

(** ** Replies without back quotes *)

Module Reply.

Definition no_backtick (w : str) : bool :=
  forallb (fun c => negb (c =? ch "`")) w.

End Reply.

(** ** [str.strip] and [base64.b64encode] *)

Module Py.

(** [s.lstrip()], [s.rstrip()] and [s.strip()]: white space is what
    [str.isspace] accepts, as for [\s]. *)
Fixpoint lstrip (s : str) : str :=
  match s with
  | c :: s' => if Re.is_whitespace c then lstrip s' else s
  | [] => []
  end.

Definition rstrip (s : str) : str := rev (lstrip (rev s)).

Definition strip (s : str) : str := rstrip (lstrip s).

(** The base64 alphabet: A to Z, a to z, 0 to 9, plus and slash. *)
Definition b64_char (n : N) : char :=
  if n <? 26 then 65 + n
  else if n <? 52 then 97 + (n - 26)
  else if n <? 62 then 48 + (n - 52)
  else if n =? 62 then ch "+"
  else ch "/".

(** [base64.b64encode(data)], read as text: three bytes give four
    characters, and a last group of one or two bytes is padded with [=]. *)
Fixpoint b64encode (data : bytes) : str :=
  match data with
  | [] => []
  | [a] => [b64_char (a / 4); b64_char (a mod 4 * 16); ch "="; ch "="]
  | [a; b] =>
      [b64_char (a / 4); b64_char (a mod 4 * 16 + b / 16);
       b64_char (b mod 16 * 4); ch "="]
  | a :: b :: c :: rest =>
      b64_char (a / 4) :: b64_char (a mod 4 * 16 + b / 16)
      :: b64_char (b mod 16 * 4 + c / 64) :: b64_char (c mod 64)
      :: b64encode rest
  end.

(** A character that [b64encode] can produce. *)
Definition is_b64_char (c : char) : bool :=
  ((65 <=? c) && (c <=? 90)) || ((97 <=? c) && (c <=? 122))
  || ((48 <=? c) && (c <=? 57)) || (c =? ch "+") || (c =? ch "/") || (c =? ch "=").

End Py.

(** ** [object_detection/utils/image_to_base64.py] *)

Module ImageToBase64.
Import Py.

(** What pydantic found wrong with a field of [ImageConversionRequest]. *)
Inductive field_error :=
| MissingImagePath
| InvalidImagePath (e : exn)
| InvalidFormat (given : str).

(** Pillow on files, and the text of pydantic's [ValidationError]. *)
Class Pillow := {
  Image_open_path : str -> result Image;
  Image_save : Image -> str -> result bytes;
  request_error_str : list field_error -> str
}.

(** [ImageConversionRequest] *)
Record ImageConversionRequest := {
  image_path : str;
  format : str
}.

(** [ImageConversionResponse] *)
Record ImageConversionResponse := {
  success : bool;
  base64_string : option str;
  error_message : option str
}.

(** [validate_image_path], the validator of the field [image_path] *)
Definition validate_image_path (v : str) : result str :=
  if bool_decide (v = []) || bool_decide (strip v = []) then
    Raise (ValueError (cp "Image path cannot be empty"))
  else Ok (strip v).

(** Literal["JPEG", "PNG", "GIF", "BMP", "TIFF"] *)
Definition formats : list str :=
  [cp "JPEG"; cp "PNG"; cp "GIF"; cp "BMP"; cp "TIFF"].

Definition default_format : str := cp "JPEG".

(** [except FileNotFoundError] *)
Definition is_file_not_found (e : exn) : bool :=
  match e with
  | LibraryError cls _ => bool_decide (cls = cp "FileNotFoundError")
  | _ => false
  end.

Section WithPillow.
Context `{Pillow}.

(** [ImageConversionRequest(image_path=.., format=..)]: [image_path] is
    required and goes through its validator, [format] is optional and has to
    be one of the five names.  The errors of all fields are reported
    together. *)
Definition new_ImageConversionRequest (image_path format : option str)
  : result ImageConversionRequest :=
  let checked_path :=
    match image_path with
    | None => inl [MissingImagePath]
    | Some v =>
        match validate_image_path v with
        | Ok p => inr p
        | Raise e => inl [InvalidImagePath e]
        end
    end in
  let checked_format :=
    match format with
    | None => inr default_format
    | Some f => if bool_decide (f ∈ formats) then inr f else inl [InvalidFormat f]
    end in
  match checked_path, checked_format with
  | inr p, inr f => Ok {| image_path := p; format := f |}
  | inl errors, inr _ => Raise (ValidationError (request_error_str errors))
  | inr _, inl errors => Raise (ValidationError (request_error_str errors))
  | inl errors, inl errors' =>
      Raise (ValidationError (request_error_str (errors ++ errors')))
  end.

(** [image_to_base64(image_path, format="JPEG")] *)
Definition image_to_base64 (image_path : str) (format : option str) : str :=
  let format := default default_format format in
  let body :=
    match Image_open_path image_path with
    | Ok img =>
        match Image_save img format with
        | Ok buffered => Ok (b64encode buffered)
        | Raise e => Raise e
        end
    | Raise e => Raise e
    end in
  match body with
  | Ok img_str => img_str
  | Raise e =>
      if is_file_not_found e then
        cp "Error: Image file not found at " ++ image_path
      else cp "Error: Could not convert image to base64: " ++ exn_str e
  end.

(** [image_to_base64_validated(request)] *)
Definition image_to_base64_validated (request : ImageConversionRequest)
  : ImageConversionResponse :=
  let body :=
    match Image_open_path (image_path request) with
    | Ok img =>
        match Image_save img (format request) with
        | Ok buffered => Ok (b64encode buffered)
        | Raise e => Raise e
        end
    | Raise e => Raise e
    end in
  match body with
  | Ok base64_string =>
      {| success := true; base64_string := Some base64_string;
         error_message := None |}
  | Raise e =>
      if is_file_not_found e then
        {| success := false; base64_string := None;
           error_message :=
             Some (cp "Image file not found at " ++ image_path request) |}
      else
        {| success := false; base64_string := None;
           error_message :=
             Some (cp "Could not convert image to base64: " ++ exn_str e) |}
  end.

End WithPillow.

End ImageToBase64.

(** ** [main] of [object_detection/qwen.py], the command line *)

Module Cli.
Import ImageToBase64.

(** The parsed arguments. *)
Record Namespace := {
  model : str;
  image : str;
  prompt : str;
  max_tokens : Z;
  temp : float
}.

(** [parser.parse_args()] on a command line that gives the two required
    arguments: the optional ones take their defaults. *)
Definition parse_args (model : option str) (image prompt : str)
           (max_tokens : option Z) (temp : option float) : Namespace :=
  {| model := default (cp "mlx-community/Qwen2.5-VL-7B-Instruct-4bit") model;
     image := image;
     prompt := prompt;
     max_tokens := default 512%Z max_tokens;
     temp := default Qwen.default_temperature temp |}.

(** What [main] does that can be seen from outside: the texts it prints,
    the calls of the model library, and the image file it opens. *)
Inductive action :=
| Printed (text : str)
| Called (call : event)
| ImageOpened (path : str).

(** Computations that add to the actions done so far and may raise. *)
Definition C (A : Type) : Type := list action -> result A * list action.

Definition ret {A} (a : A) : C A := fun done => (Ok a, done).

Definition bind {A B} (m : C A) (f : A -> C B) : C B :=
  fun done =>
    match m done with
    | (Ok a, done') => f a done'
    | (Raise e, done') => (Raise e, done')
    end.

Definition lift {A} (r : result A) : C A := fun done => (r, done).

Definition act (a : action) : C unit := fun done => (Ok tt, done ++ [a]).

(** [print(text)] *)
Definition print (text : str) : C unit := act (Printed text).

(** [try: m  except Exception as e: h e] *)
Definition try_except {A} (m : C A) (h : exn -> C A) : C A :=
  fun done =>
    match m done with
    | (Ok a, done') => (Ok a, done')
    | (Raise e, done') => h e done'
    end.

Declare Scope cli_scope.
Delimit Scope cli_scope with cli.
Notation "x <- m ;; k" := (bind m (fun x => k))
  (at level 100, m at next level, right associativity) : cli_scope.
Notation "m ;; k" := (bind m (fun _ => k))
  (at level 100, right associativity) : cli_scope.

Definition system_prompt : str :=
  concat (map (fun line => Qwen.newline ++ line) [
    cp "                You are a helpfull assistant to detect objects in images.";
    cp "                Detect all objects in the image and return their locations ";
    cp "                and labels in the form of coordinates.";
    cp "                Be as precise as possible.";
    cp "                If you are not sure about the object or its position return nothing.";
    cp "                Response format:";
    cp "                ```json";
    cp "                [{";
    cp "                    " ++ dquote :: cp "object" ++ dquote :: cp ": "
       ++ dquote :: cp "object_name" ++ dquote :: cp ",";
    cp "                    " ++ dquote :: cp "bbox_2d" ++ dquote
       :: cp ": [xmin, ymin, xmax, ymax]";
    cp "                }, ...]";
    cp "                ```";
    cp "            "
  ]).

Definition messages_for (image : Image) (prompt : str) : list message :=
  [ {| role := cp "system"; content := Text system_prompt |};
    {| role := cp "user";
       content := Parts [ImagePart image; TextPart prompt] |} ].

(** The values [main] passes to [generate] *)
Definition generate_max_tokens : Z := 1000.
Definition generate_temperature : float := Api.default_temperature.

(** The actions that are not prints. *)
Definition calls (actions : list action) : list action :=
  List.filter (fun a => match a with Printed _ => false | _ => true end) actions.

Section WithLibraries.
Context `{Libraries} `{Pillow}.

(** [main], from the parsed arguments on.  An early [return] ends the
    function with [None]; the calls of [load_config] and
    [apply_chat_template] stand outside every [try]. *)
Definition main (args : Namespace) : C unit :=
  (print (cp "[*] Loading model: " ++ model args ++ cp "...") ;;
   loaded <-
     try_except
       (act (Called (LoadCalled (model args))) ;;
        loaded <- lift (load (model args)) ;;
        print (cp "[+] Model loaded successfully.") ;;
        ret (Some loaded))
       (fun e =>
          print (cp "[!] Error loading model: " ++ exn_str e) ;;
          ret None) ;;
   match loaded with
   | None => ret tt
   | Some (model_obj, processor) =>
       opened <-
         try_except
           (act (ImageOpened (image args)) ;;
            opened <- lift (Image_open_path (image args)) ;;
            ret (Some opened))
           (fun e =>
              (if is_file_not_found e then
                 print (cp "[!] Image file not found: " ++ image args)
               else
                 print (cp "[!] Error opening image: " ++ exn_str e)) ;;
              ret None) ;;
       match opened with
       | None => ret tt
       | Some img =>
           let messages := messages_for img (prompt args) in
           act (Called (LoadConfigCalled (model args))) ;;
           config <- lift (load_config (model args)) ;;
           act (Called (ChatTemplateCalled messages)) ;;
           prompt_text <- lift (apply_chat_template processor config messages) ;;
           print (Qwen.newline ++ cp "[*] Generating response...") ;;
           generated <-
             try_except
               (act (Called (GenerateCalled generate_max_tokens
                                            generate_temperature)) ;;
                response <- lift (generate model_obj processor prompt_text
                                           generate_max_tokens
                                           generate_temperature) ;;
                ret (Some response))
               (fun e =>
                  print (cp "[!] Error during generation: " ++ exn_str e) ;;
                  ret None) ;;
           match generated with
           | None => ret tt
           | Some response =>
               print (Qwen.newline ++ Qwen.newline ++ cp "--- Model Response ---") ;;
               print (response_str response) ;;
               print (cp "----------------------")
           end
       end
   end)%cli.

End WithLibraries.

End Cli.

(** ** More sample inputs *)

Module Demo.
Import ImageToBase64.

(** A file system with one image, which Pillow saves as PNG only. *)
Definition pillow : Pillow :=
  {| Image_open_path := fun path =>
       if bool_decide (path = cp "watch.png") then Ok Sample.png
       else Raise (LibraryError (cp "FileNotFoundError")
                                (cp "[Errno 2] No such file or directory"));
     Image_save := fun _ format =>
       if bool_decide (format = cp "PNG") then Ok [137; 80; 78; 71; 13]
       else Raise (LibraryError (cp "OSError") (cp "cannot write mode RGBA as JPEG"));
     request_error_str := fun errors =>
       str_of_nat (length errors) ++ cp " validation error for ImageConversionRequest" |}.

(** A reply that opens with a remark and holds the array in a fence. *)
Definition chatty_reply : str :=
  cp "Here you are:" ++ [10] ++ Sample.fenced_reply ++ [10] ++ cp "Done [1].".

(** Libraries whose model answers with an array of numbers: the array of
    [Sample.multiline_reply], which the second pattern cuts down to the four
    coordinates. *)
Program Definition coordinates_libraries : Libraries :=
  {| Model := unit;
     Processor := unit;
     Config := unit;
     Prompt := list message;
     GenerationResult := str;
     load := fun _ => Ok (tt, tt);
     load_config := fun _ => Ok tt;
     apply_chat_template := fun _ _ messages => Ok messages;
     generate := fun _ _ _ _ _ => Ok Sample.multiline_reply;
     response_str := fun response => response;
     Image_open := fun _ => Ok Sample.png;
     Image_verify := fun _ => Ok tt;
     validation_error_str := fun _ => cp "4 validation errors for ObjectDetectionResult";
     tmp_name := fun fs _ => fresh (dom fs) |}.
Next Obligation. intros fs suffix. simpl. apply not_elem_of_dom, is_fresh. Qed.

Definition arguments : Cli.Namespace :=
  Cli.parse_args None (cp "watch.png") (cp "find the watch") None None.

End Demo.

(** * Properties *)

(** ** The backtracking matcher against the words of a pattern *)

Section ReFacts.
Import Re.
Context {R : Type}.
Implicit Types (s w rest : str) (cs : charset) (r : regex) (g : option str).

Lemma greedy_star_sound cs s (k : str -> option R) a :
  greedy_star cs s k = Some a ->
  exists w rest,
    s = w ++ rest /\ forallb (in_charset cs) w = true /\ k rest = Some a.
Proof.
  induction s as [|c s IH]; simpl; intros Hk.
  - exists [], []. auto.
  - destruct (in_charset cs c) eqn:Hc.
    + destruct (greedy_star cs s k) as [a'|] eqn:Hg.
      * destruct (IH Hk) as (w & rest & -> & Hw & Hr).
        exists (c :: w), rest. simpl. rewrite Hc, Hw. auto.
      * exists [], (c :: s). auto.
    + exists [], (c :: s). auto.
Qed.

Lemma greedy_star_here cs s (k : str -> option R) :
  is_Some (k s) -> is_Some (greedy_star cs s k).
Proof.
  intros Hk. destruct s as [|c s]; simpl; [done|].
  destruct (in_charset cs c); [|done].
  destruct (greedy_star cs s k); [eauto|done].
Qed.

Lemma greedy_star_complete cs w rest (k : str -> option R) :
  forallb (in_charset cs) w = true -> is_Some (k rest) ->
  is_Some (greedy_star cs (w ++ rest) k).
Proof.
  induction w as [|c w IH]; simpl; intros Hw Hk.
  - by apply greedy_star_here.
  - apply andb_prop in Hw as [Hc Hw]. rewrite Hc.
    destruct (IH Hw Hk) as [a Ha]. rewrite Ha. eauto.
Qed.

(** The non-greedy star stops at the first place where the rest of the
    pattern succeeds. *)
Lemma lazy_star_sound cs s (k : str -> option R) a :
  lazy_star cs s k = Some a ->
  exists w rest,
    s = w ++ rest /\ forallb (in_charset cs) w = true /\ k rest = Some a /\
    forall w1 w2, w = w1 ++ w2 -> w2 <> [] -> k (w2 ++ rest) = None.
Proof.
  induction s as [|c s IH]; simpl; intros Hk.
  - destruct (k []) as [a'|] eqn:Hnil; [|done]. injection Hk as ->.
    exists [], []. split; [done|]. split; [done|]. split; [done|].
    intros w1 w2 Hw. by destruct w1, w2.
  - destruct (k (c :: s)) as [a'|] eqn:Hhere.
    + injection Hk as ->. exists [], (c :: s). split; [done|]. split; [done|]. split; [done|].
      intros w1 w2 Hw. by destruct w1, w2.
    + destruct (in_charset cs c) eqn:Hc; [|done].
      destruct (IH Hk) as (w & rest & -> & Hw & Hr & Hmin).
      exists (c :: w), rest. simpl. rewrite Hc, Hw.
      split; [done|]. split; [done|]. split; [done|].
      intros w1 w2 Heq Hne. destruct w1 as [|c1 w1]; simpl in Heq.
      * subst w2. exact Hhere.
      * injection Heq as -> ->. by apply Hmin with w1.
Qed.

Lemma lazy_star_complete cs w rest (k : str -> option R) :
  forallb (in_charset cs) w = true -> is_Some (k rest) ->
  is_Some (lazy_star cs (w ++ rest) k).
Proof.
  induction w as [|c w IH]; simpl; intros Hw Hk.
  - destruct rest; simpl; destruct Hk as [a ->]; eauto.
  - apply andb_prop in Hw as [Hc Hw].
    destruct (k (c :: w ++ rest)); [eauto|]. rewrite Hc. by apply IH.
Qed.

Lemma take_length_diff w rest : take (length (w ++ rest) - length rest) (w ++ rest) = w.
Proof.
  rewrite length_app. replace (length w + length rest - length rest)%nat with (length w) by lia.
  apply take_app_length.
Qed.

Lemma take_length_diff_eq s w rest :
  s = w ++ rest -> take (length s - length rest) s = w.
Proof. intros ->. apply take_length_diff. Qed.

Lemma run_sound r : forall g s (k : option str -> str -> option R) a,
  run r g s k = Some a ->
  exists w rest g',
    s = w ++ rest /\ matches r g w g' /\ k g' rest = Some a.
Proof.
  induction r as [|cs|cs|cs|r1 IH1 r2 IH2|r1 IH1]; simpl; intros g s k a Hrun.
  - exists [], s, g. repeat split; auto. constructor.
  - destruct s as [|c s]; [done|]. destruct (in_charset cs c) eqn:Hc; [|done].
    exists [c], s, g. repeat split; auto. by constructor.
  - apply greedy_star_sound in Hrun as (w & rest & -> & Hw & Hk).
    exists w, rest, g. repeat split; auto. by constructor.
  - apply lazy_star_sound in Hrun as (w & rest & -> & Hw & Hk & _).
    exists w, rest, g. repeat split; auto. by constructor.
  - apply IH1 in Hrun as (w1 & rest1 & g1 & -> & Hm1 & Hrun).
    apply IH2 in Hrun as (w2 & rest2 & g2 & -> & Hm2 & Hk).
    exists (w1 ++ w2), rest2, g2. rewrite <- app_assoc. repeat split; auto.
    by econstructor.
  - apply IH1 in Hrun as (w & rest & g1 & -> & Hm & Hk).
    rewrite take_length_diff in Hk.
    exists w, rest, (Some w). repeat split; auto. by econstructor.
Qed.

Lemma run_complete r g w g' :
  matches r g w g' ->
  forall rest (k : option str -> str -> option R),
    is_Some (k g' rest) -> is_Some (run r g (w ++ rest) k).
Proof.
  induction 1 as [g|cs c g Hc|cs w g Hw|cs w g Hw
                 |r1 r2 g g1 g2 w1 w2 _ IH1 _ IH2|r g g1 w _ IH];
    simpl; intros rest k Hk.
  - done.
  - by rewrite Hc.
  - by apply greedy_star_complete.
  - by apply lazy_star_complete.
  - rewrite <- app_assoc. apply IH1. by apply IH2.
  - apply IH. by rewrite take_length_diff.
Qed.

End ReFacts.

Section SearchFacts.
Import Re.
Implicit Types (s w rest : str) (r : regex) (m : Match).

Lemma match_at_sound r pos s m :
  match_at r pos s = Some m ->
  m_start m = pos /\
  exists rest, s = group0 m ++ rest /\ matches r None (group0 m) (group1 m).
Proof.
  unfold match_at. intros Hrun.
  apply run_sound in Hrun as (w & rest & g' & -> & Hm & Hk).
  rewrite take_length_diff in Hk. injection Hk as <-. simpl. eauto.
Qed.

Lemma match_at_complete r pos w rest g :
  matches r None w g -> is_Some (match_at r pos (w ++ rest)).
Proof. intros Hm. unfold match_at. eapply run_complete; eauto. Qed.

Lemma match_at_None r pos s :
  match_at r pos s = None ->
  forall w rest g, s = w ++ rest -> ~ matches r None w g.
Proof.
  intros Hnone w rest g -> Hm.
  destruct (match_at_complete r pos w rest g Hm) as [m Hsome]. congruence.
Qed.

(** [search_from] returns the match at the first suffix that has one: no
    match of the pattern starts to the left of it. *)
Lemma search_from_inv r : forall s pos m,
  search_from r pos s = Some m ->
  exists pre suf,
    s = pre ++ suf /\
    match_at r (pos + length pre) suf = Some m /\
    forall pre' w' post' g',
      s = pre' ++ w' ++ post' -> matches r None w' g' ->
      (length pre <= length pre')%nat.
Proof.
  induction s as [|c s IH]; intros pos m; simpl.
  - destruct (match_at r pos []) as [m'|] eqn:Hat; [|done].
    intros [= ->]. exists [], []. simpl. rewrite Nat.add_0_r.
    repeat split; auto with lia.
  - destruct (match_at r pos (c :: s)) as [m'|] eqn:Hat.
    + intros [= ->]. exists [], (c :: s). simpl. rewrite Nat.add_0_r.
      repeat split; auto with lia.
    + intros Hs. apply IH in Hs as (pre & suf & -> & Hat' & Hleft).
      exists (c :: pre), suf. simpl.
      replace (pos + S (length pre))%nat with (S pos + length pre)%nat by lia.
      repeat split; auto.
      intros pre' w' post' g' Heq Hm'. destruct pre' as [|c' pre']; simpl in Heq.
      * exfalso. eapply match_at_None; eauto.
      * injection Heq as -> Heq. simpl. specialize (Hleft _ _ _ _ Heq Hm'). lia.
Qed.

Lemma search_from_sound r s pos m :
  search_from r pos s = Some m ->
  exists pre post,
    s = pre ++ group0 m ++ post /\
    m_start m = (pos + length pre)%nat /\
    matches r None (group0 m) (group1 m) /\
    forall pre' w' post' g',
      s = pre' ++ w' ++ post' -> matches r None w' g' ->
      (length pre <= length pre')%nat.
Proof.
  intros Hs. apply search_from_inv in Hs as (pre & suf & -> & Hat & Hleft).
  apply match_at_sound in Hat as (Hst & rest & -> & Hm).
  exists pre, rest. auto.
Qed.

Lemma search_from_None r : forall s pos,
  search_from r pos s = None -> ~ occurs r s.
Proof.
  induction s as [|c s IH]; intros pos; simpl.
  - destruct (match_at r pos []) eqn:Hat; [done|]. intros _ (pre & w & post & g & Heq & Hm).
    destruct pre; [|done]. simpl in Heq. eapply match_at_None; eauto.
  - destruct (match_at r pos (c :: s)) eqn:Hat; [done|].
    intros Hs (pre & w & post & g & Heq & Hm). destruct pre as [|c' pre]; simpl in Heq.
    + eapply match_at_None; eauto.
    + injection Heq as -> Heq. apply IH in Hs. apply Hs. by exists pre, w, post, g.
Qed.

Lemma search_Some_occurs r s m : search r s = Some m -> occurs r s.
Proof.
  intros Hs. apply search_from_sound in Hs as (pre & post & -> & _ & Hm & _).
  by exists pre, (group0 m), post, (group1 m).
Qed.

Lemma search_None_iff r s : search r s = None <-> ~ occurs r s.
Proof.
  split; [apply search_from_None|].
  intros Hno. destruct (search r s) eqn:Hs; [|done].
  exfalso. eauto using search_Some_occurs.
Qed.

End SearchFacts.

(** ** The words of the two patterns *)

Section PatternWords.
Import Re Fence.
Implicit Types (s w t pre post : str) (g : option str).

Lemma matches_literal t : forall g w g',
  matches (literal t) g w g' <-> w = t /\ g' = g.
Proof.
  induction t as [|c t IH]; simpl; intros g w g'.
  - split.
    + inversion 1; auto.
    + intros [-> ->]. constructor.
  - split.
    + inversion 1 as [| | | |r1 r2 g0 g1 g2 w1 w2 H1 H2|]; subst.
      inversion H1; subst. simpl in *.
      apply IH in H2 as [-> ->]. split; [|done].
      f_equal. symmetry. by apply N.eqb_eq.
    + intros [-> ->]. apply (matches_Seq _ _ g g g [c] t).
      * constructor. simpl. apply N.eqb_refl.
      * by apply IH.
Qed.

Lemma matches_brackets cs g w g' :
  matches (Seq (Atom (Exactly (ch "[")))
               (Seq (LazyStar cs) (Atom (Exactly (ch "]"))))) g w g' <->
  exists body,
    w = ch "[" :: body ++ [ch "]"] /\ forallb (in_charset cs) body = true /\ g' = g.
Proof.
  split.
  - intros H.
    inversion H as [| | | |? ? ? ? ? w1 w23 H1 H23|]; subst; clear H.
    inversion H23 as [| | | |? ? ? ? ? w2 w3 H2 H3|]; subst; clear H23.
    inversion H1 as [|? c1 ? Hc1| | | |]; subst; clear H1.
    inversion H2; subst; clear H2.
    inversion H3 as [|? c3 ? Hc3| | | |]; subst; clear H3.
    unfold in_charset in Hc1, Hc3.
    apply N.eqb_eq in Hc1 as <-. apply N.eqb_eq in Hc3 as <-.
    exists w2. auto.
  - intros (body & -> & Hb & ->).
    apply (matches_Seq _ _ g g g [ch "["] (body ++ [ch "]"])).
    + by constructor.
    + apply (matches_Seq _ _ g g g body [ch "]"]); by constructor.
Qed.

Lemma matches_bare g w g' :
  matches bare_pattern g w g' <->
  exists body, w = ch "[" :: body ++ [ch "]"] /\ no_newline body = true /\ g' = g.
Proof. apply matches_brackets. Qed.

Lemma matches_fence_shape l1 l2 g w g' :
  matches (Seq (literal l1)
          (Seq (Star Whitespace)
          (Seq (Group (Seq (Atom (Exactly (ch "[")))
                      (Seq (LazyStar AnyChar) (Atom (Exactly (ch "]"))))))
          (Seq (Star Whitespace) (literal l2))))) g w g' <->
  exists ws1 t ws2,
    w = l1 ++ ws1 ++ t ++ ws2 ++ l2 /\
    bracketed t /\ all_whitespace ws1 = true /\ all_whitespace ws2 = true /\
    g' = Some t.
Proof.
  split.
  - intros H.
    inversion H as [| | | |? ? ? ? ? w1 wa H1 Ha|]; subst; clear H.
    inversion Ha as [| | | |? ? ? ? ? w2 wb H2 Hb|]; subst; clear Ha.
    inversion Hb as [| | | |? ? ? ? ? w3 wc H3 Hc|]; subst; clear Hb.
    inversion Hc as [| | | |? ? ? ? ? w4 w5 H4 H5|]; subst; clear Hc.
    apply matches_literal in H1 as [-> ->].
    apply matches_literal in H5 as [-> ->].
    inversion H2; subst; clear H2.
    inversion H4; subst; clear H4.
    inversion H3 as [| | | | |? ? ? ? Hg]; subst; clear H3.
    apply matches_brackets in Hg as (body & -> & _ & _).
    exists w2, (ch "[" :: body ++ [ch "]"]), w4.
    repeat split; auto. by exists body.
  - intros (ws1 & t & ws2 & -> & [body ->] & H1 & H2 & ->).
    apply (matches_Seq _ _ g g _ l1); [by apply matches_literal|].
    apply (matches_Seq _ _ g g _ ws1); [by constructor|].
    apply (matches_Seq _ _ g (Some (ch "[" :: body ++ [ch "]"])) _
                       (ch "[" :: body ++ [ch "]"])).
    + apply (matches_Group _ g g).
      apply matches_brackets. exists body. repeat split; auto.
      by apply forallb_forall.
    + apply (matches_Seq _ _ (Some (ch "[" :: body ++ [ch "]"]))
                         (Some (ch "[" :: body ++ [ch "]"])) _ ws2);
        [by constructor|].
      by apply matches_literal.
Qed.

Lemma matches_fenced g w g' :
  matches fenced_pattern g w g' <->
  exists ws1 t ws2,
    w = cp "```json" ++ ws1 ++ t ++ ws2 ++ cp "```" /\
    bracketed t /\ all_whitespace ws1 = true /\ all_whitespace ws2 = true /\
    g' = Some t.
Proof. apply matches_fence_shape. Qed.

(** A substring matched by a pattern, in the words of [Fence]. *)
Lemma occurs_fenced s : occurs fenced_pattern s <-> has_fenced_array s.
Proof.
  split.
  - intros (pre & w & post & g & -> & Hm).
    apply matches_fenced in Hm as (ws1 & t & ws2 & -> & Ht & H1 & H2 & _).
    exists pre, t. split; [done|]. exists ws1, ws2, post.
    split; [|done]. by rewrite <- !app_assoc.
  - intros (pre & t & Ht & ws1 & ws2 & post & -> & H1 & H2).
    exists pre, (cp "```json" ++ ws1 ++ t ++ ws2 ++ cp "```"), post, (Some t).
    split; [by rewrite <- !app_assoc|].
    apply matches_fenced. by exists ws1, t, ws2.
Qed.

Lemma occurs_bare s : occurs bare_pattern s <-> has_bare_array s.
Proof.
  split.
  - intros (pre & w & post & g & -> & Hm).
    apply matches_bare in Hm as (body & -> & Hb & _).
    exists pre, (ch "[" :: body ++ [ch "]"]), body, post. auto.
  - intros (pre & t & body & post & -> & -> & Hb).
    exists pre, (ch "[" :: body ++ [ch "]"]), post, None.
    split; [done|]. apply matches_bare. by exists body.
Qed.

End PatternWords.

(** ** Which match [re.search] returns for the two patterns *)

Section FirstMatch.
Import Re Fence.
Implicit Types (s w t pre post body rest : str) (g : option str) (m : Match).

Lemma in_exactly c c' : in_charset (Exactly c) c' = true <-> c' = c.
Proof. unfold in_charset. rewrite N.eqb_eq. split; congruence. Qed.

(** An opening bracket, a non-greedy run and a closing bracket: the run ends
    at the first closing bracket after which the rest of the pattern
    succeeds. *)
Lemma run_brackets_sound {R} cs g s (k : option str -> str -> option R) a :
  run (Seq (Atom (Exactly (ch "[")))
           (Seq (LazyStar cs) (Atom (Exactly (ch "]"))))) g s k = Some a ->
  exists body rest,
    s = ch "[" :: body ++ ch "]" :: rest /\
    forallb (in_charset cs) body = true /\
    k g rest = Some a /\
    forall b1 b2, body = b1 ++ ch "]" :: b2 -> k g (b2 ++ ch "]" :: rest) = None.
Proof.
  cbn [run]. destruct s as [|c s]; [done|].
  destruct (in_charset (Exactly (ch "[")) c) eqn:Hc; [|done].
  apply in_exactly in Hc as ->. intros H.
  apply lazy_star_sound in H as (w & rest & -> & Hw & Hk & Hmin).
  destruct rest as [|c' rest]; [done|].
  destruct (in_charset (Exactly (ch "]")) c') eqn:Hc'; [|done].
  apply in_exactly in Hc' as ->.
  exists w, rest. repeat split; auto.
  intros b1 b2 ->.
  specialize (Hmin b1 (ch "]" :: b2) eq_refl).
  cbn [app] in Hmin.
  replace (in_charset (Exactly (ch "]")) (ch "]")) with true in Hmin
    by (symmetry; by apply in_exactly).
  by apply Hmin.
Qed.

Lemma no_closing_bracket_spec body :
  (forall b1 b2, body <> b1 ++ ch "]" :: b2) -> no_closing_bracket body = true.
Proof.
  induction body as [|c body IH]; [done|]. intros Hno.
  unfold no_closing_bracket. cbn [forallb].
  destruct (c =? ch "]") eqn:Hc.
  - apply N.eqb_eq in Hc as ->. by destruct (Hno [] body).
  - cbn [negb andb]. apply IH. intros b1 b2 ->. by apply (Hno (c :: b1) b2).
Qed.

(** The bare pattern, tried at the head of [s]: the match runs from the
    opening bracket to the first closing bracket, on one line. *)
Lemma match_at_bare pos s m :
  match_at bare_pattern pos s = Some m ->
  exists body rest,
    s = ch "[" :: body ++ ch "]" :: rest /\
    group0 m = ch "[" :: body ++ [ch "]"] /\
    no_newline body = true /\ no_closing_bracket body = true.
Proof.
  unfold match_at, bare_pattern. intros H.
  apply run_brackets_sound in H as (body & rest & -> & Hb & Hk & Hmin).
  injection Hk as <-. cbn [group0].
  exists body, rest. repeat split; auto.
  - apply (take_length_diff_eq (ch "[" :: body ++ ch "]" :: rest)
                                (ch "[" :: body ++ [ch "]"]) rest).
    simpl. by rewrite <- app_assoc.
  - apply no_closing_bracket_spec. intros b1 b2 Heq.
    by specialize (Hmin b1 b2 Heq).
Qed.

Lemma run_literal_sound {R} l g s (k : option str -> str -> option R) a :
  run (literal l) g s k = Some a -> exists rest, s = l ++ rest /\ k g rest = Some a.
Proof.
  intros H. apply run_sound in H as (w & rest & g' & -> & Hm & Hk).
  apply matches_literal in Hm as [-> ->]. eauto.
Qed.

Lemma run_literal_complete {R} l g rest (k : option str -> str -> option R) :
  is_Some (k g rest) -> is_Some (run (literal l) g (l ++ rest) k).
Proof. intros Hk. eapply run_complete; eauto. by apply matches_literal. Qed.

Lemma run_Seq {R} r1 r2 g s (k : option str -> str -> option R) :
  run (Seq r1 r2) g s k = run r1 g s (fun g' s' => run r2 g' s' k).
Proof. reflexivity. Qed.

Lemma run_Star {R} cs g s (k : option str -> str -> option R) :
  run (Star cs) g s k = greedy_star cs s (k g).
Proof. reflexivity. Qed.

Lemma run_Group {R} r g s (k : option str -> str -> option R) :
  run (Group r) g s k =
  run r g s (fun _ s' => k (Some (take (length s - length s') s)) s').
Proof. reflexivity. Qed.

(** The fenced pattern, tried at the head of [s]: group 1 is a bracketed
    text between the fence marks, and it ends at the first closing bracket
    that is followed by white space and the closing fence. *)
Lemma match_at_fenced pos s m :
  match_at fenced_pattern pos s = Some m ->
  exists ws1 body ws2 post,
    s = cp "```json" ++ ws1 ++ ch "[" :: body ++ ch "]" :: ws2 ++ cp "```" ++ post /\
    all_whitespace ws1 = true /\ all_whitespace ws2 = true /\
    group1 m = Some (ch "[" :: body ++ [ch "]"]) /\
    forall b1 b2 ws post',
      body = b1 ++ ch "]" :: b2 -> all_whitespace ws = true ->
      b2 ++ ch "]" :: ws2 ++ cp "```" ++ post <> ws ++ cp "```" ++ post'.
Proof.
  unfold match_at, fenced_pattern. intros H.
  rewrite run_Seq in H.
  apply run_literal_sound in H as (rest1 & -> & H).
  rewrite run_Seq, run_Star in H.
  apply greedy_star_sound in H as (ws1 & rest2 & -> & Hws1 & H).
  rewrite run_Seq, run_Group in H.
  apply run_brackets_sound in H as (body & rest3 & -> & _ & H & Hmin).
  rewrite run_Seq, run_Star in H.
  apply greedy_star_sound in H as (ws2 & rest4 & -> & Hws2 & H).
  apply run_literal_sound in H as (post & -> & H).
  injection H as <-. cbn [group1].
  exists ws1, body, ws2, post. repeat split; auto.
  - f_equal.
    apply (take_length_diff_eq
             (ch "[" :: body ++ ch "]" :: ws2 ++ cp "```" ++ post)
             (ch "[" :: body ++ [ch "]"]) (ws2 ++ cp "```" ++ post)).
    simpl. by rewrite <- app_assoc.
  - intros b1 b2 ws post' Hbody Hws Heq.
    specialize (Hmin b1 b2 Hbody). rewrite Heq in Hmin.
    rewrite run_Seq, run_Star in Hmin.
    match type of Hmin with
    | ?lhs = None => assert (Hsome : is_Some lhs)
    end; [|rewrite Hmin in Hsome; by destruct Hsome].
    apply greedy_star_complete; [done|].
    by apply run_literal_complete.
Qed.

Lemma whitespace_run_unique ws : forall ws' x x' r r',
  all_whitespace ws = true -> all_whitespace ws' = true ->
  is_whitespace x = false -> is_whitespace x' = false ->
  ws ++ x :: r = ws' ++ x' :: r' -> ws = ws' /\ x = x' /\ r = r'.
Proof.
  induction ws as [|c ws IH]; intros [|c' ws'] x x' r r' H1 H2 Hx Hx' Heq;
    simpl in *.
  - by injection Heq.
  - injection Heq as -> _. apply andb_prop in H2 as [H2 _]. congruence.
  - injection Heq as -> _. apply andb_prop in H1 as [H1 _]. congruence.
  - injection Heq as -> Heq.
    apply andb_prop in H1 as [_ H1]. apply andb_prop in H2 as [_ H2].
    destruct (IH _ _ _ _ _ H1 H2 Hx Hx' Heq) as (-> & -> & ->). auto.
Qed.

Lemma app_cons_shorter {A} (a : list A) : forall a' x x' r r',
  a ++ x :: r = a' ++ x' :: r' -> (length a' < length a)%nat ->
  exists b, a = a' ++ x' :: b /\ r' = b ++ x :: r.
Proof.
  induction a as [|y a IH]; intros [|y' a'] x x' r r' Heq Hlen; simpl in *;
    try lia.
  - injection Heq as -> <-. by exists a.
  - injection Heq as -> Heq.
    destruct (IH _ _ _ _ _ Heq) as (b & -> & ->); [lia|]. by exists b.
Qed.

Lemma not_whitespace_bracket : is_whitespace (ch "[") = false.
Proof. reflexivity. Qed.

(** [re.search] with the fenced pattern: group 1 is the shortest bracketed
    text inside the leftmost fence that holds one. *)
Lemma search_fenced s m :
  search fenced_pattern s = Some m ->
  exists pre t,
    group1 m = Some t /\ fenced_at s pre t /\
    (forall pre' t', fenced_at s pre' t' -> (length pre <= length pre')%nat) /\
    (forall t', fenced_at s pre t' -> (length t <= length t')%nat).
Proof.
  intros Hs. apply search_from_inv in Hs as (pre & suf & -> & Hat & Hleft).
  apply match_at_fenced in Hat as (ws1 & body & ws2 & post & -> & H1 & H2 & Hg & Hmin).
  exists pre, (ch "[" :: body ++ [ch "]"]).
  split; [done|]. split; [|split].
  - split; [by exists body|]. exists ws1, ws2, post.
    split; [|done]. do 2 f_equal. simpl. by rewrite <- !app_assoc.
  - intros pre' t' (Ht' & ws1' & ws2' & post' & Heq & H1' & H2').
    apply (Hleft pre' (cp "```json" ++ ws1' ++ t' ++ ws2' ++ cp "```") post' (Some t')).
    + rewrite Heq. by rewrite <- !app_assoc.
    + apply matches_fenced. by exists ws1', t', ws2'.
  - intros t' ([body' ->] & ws1' & ws2' & post' & Heq & H1' & H2').
    apply app_inv_head in Heq. apply app_inv_head in Heq.
    cbn [app] in Heq. rewrite <- !app_assoc in Heq. cbn [app] in Heq.
    apply whitespace_run_unique in Heq as (<- & _ & Heq);
      auto using not_whitespace_bracket.
    destruct (decide (length body' < length body)%nat) as [Hlt|Hge].
    + exfalso. destruct (app_cons_shorter _ _ _ _ _ _ Heq Hlt) as (b2 & -> & Hrest).
      by apply (Hmin body' b2 ws2' post' eq_refl H2').
    + simpl. rewrite !length_app. simpl. lia.
Qed.

(** [re.search] with the bare pattern: the match is the leftmost bracketed
    text on one line, and it ends at the first closing bracket. *)
Lemma search_bare s m :
  search bare_pattern s = Some m ->
  exists pre body,
    group0 m = ch "[" :: body ++ [ch "]"] /\
    bare_at s pre (group0 m) /\
    no_closing_bracket body = true /\
    (forall pre' t', bare_at s pre' t' -> (length pre <= length pre')%nat).
Proof.
  intros Hs. apply search_from_inv in Hs as (pre & suf & -> & Hat & Hleft).
  apply match_at_bare in Hat as (body & rest & -> & Hg & Hnl & Hcb).
  exists pre, body. rewrite Hg. repeat split; auto.
  - exists body, rest. repeat split; auto.
    f_equal. simpl. by rewrite <- app_assoc.
  - intros pre' t' (body' & post' & -> & Heq & Hnl').
    apply (Hleft pre' (ch "[" :: body' ++ [ch "]"]) post' None); [done|].
    apply matches_bare. by exists body'.
Qed.

End FirstMatch.

(** ** The JSON decoder *)

Section JsonFacts.
Import Json Decoder.
Implicit Types (s r : str) (v : json).

Lemma skip_ws_length s : (length (skip_ws s) <= length s)%nat.
Proof.
  induction s as [|c s IH]; simpl; [lia|].
  destruct (is_json_ws c); simpl; lia.
Qed.

Lemma skip_ws_idem s : skip_ws (skip_ws s) = skip_ws s.
Proof.
  induction s as [|c s IH]; simpl; [done|].
  destruct (is_json_ws c) eqn:Hc; [done|]. simpl. by rewrite Hc.
Qed.

Lemma skip_ws_not_ws c s : is_json_ws c = false -> skip_ws (c :: s) = c :: s.
Proof. intros Hc. simpl. by rewrite Hc. Qed.

Lemma scanstring_shrinks_aux n : forall s, (length s < n)%nat -> forall acc,
  match scanstring s acc with
  | Scanned _ r => (length r < length s)%nat
  | Failed e => exists msg, e = JSONDecodeError msg
  | StopIteration | Exhausted => False
  end.
Proof.
  induction n as [|n IH]; intros s Hn; [lia|].
  intros acc. destruct s as [|c s1]; simpl; [eexists; reflexivity|]. simpl in Hn.
  destruct (c =? dquote); [simpl; lia|].
  destruct (c =? bslash).
  - destruct s1 as [|esc s2]; [eexists; reflexivity|].
    destruct (esc =? ch "u").
    + destruct s2 as [|h1 [|h2 [|h3 [|h4 s6]]]]; try (eexists; reflexivity).
      destruct (hex4 h1 h2 h3 h4) as [uni|]; [|eexists; reflexivity].
      destruct ((55296 <=? uni) && (uni <=? 56319) && startswith [bslash; ch "u"] s6).
      * destruct s6 as [|x1 [|x2 [|k1 [|k2 [|k3 [|k4 s12]]]]]]; try (eexists; reflexivity).
        destruct (hex4 k1 k2 k3 k4) as [uni2|]; [|eexists; reflexivity].
        destruct ((56320 <=? uni2) && (uni2 <=? 57343)).
        -- match goal with |- context [scanstring s12 ?a] =>
             specialize (IH s12 ltac:(simpl in *; lia) a) end.
           destruct (scanstring s12 _); simpl in *; auto; lia.
        -- match goal with |- context [scanstring ?x ?a] =>
             specialize (IH x ltac:(simpl in *; lia) a) end.
           destruct (scanstring _ _); simpl in *; auto; lia.
      * match goal with |- context [scanstring s6 ?a] =>
          specialize (IH s6 ltac:(simpl in *; lia) a) end.
        destruct (scanstring s6 _); simpl in *; auto; lia.
    + destruct (backslash esc) as [c'|]; [|eexists; reflexivity].
      specialize (IH s2 ltac:(simpl in *; lia) (c' :: acc)).
      destruct (scanstring s2 _); simpl in *; auto; lia.
  - destruct (c <=? 31); [eexists; reflexivity|].
    specialize (IH s1 ltac:(simpl in *; lia) (c :: acc)).
    destruct (scanstring s1 _); simpl in *; auto; lia.
Qed.

Lemma scanstring_shrinks s acc :
  match scanstring s acc with
  | Scanned _ r => (length r < length s)%nat
  | Failed e => exists msg, e = JSONDecodeError msg
  | StopIteration | Exhausted => False
  end.
Proof. apply (scanstring_shrinks_aux (S (length s))). lia. Qed.

Lemma span_digits_length s d r :
  span_digits s = (d, r) -> (length r <= length s)%nat.
Proof.
  revert d r. induction s as [|c s IH]; simpl; intros d r.
  - intros [= <- <-]. simpl. lia.
  - destruct (is_digit c).
    + destruct (span_digits s) as [d' r'] eqn:Hs. intros [= <- <-].
      specialize (IH _ _ eq_refl). lia.
    + intros [= <- <-]. simpl. lia.
Qed.

Lemma match_number_shrinks s integer frac exp r :
  match_number s = Some (integer, frac, exp, r) -> (length r < length s)%nat.
Proof.
  unfold match_number.
  destruct (match_integer s) as [[i r1]|] eqn:Hi; [|done].
  assert (H1 : (length r1 < length s)%nat).
  { unfold match_integer in Hi.
    destruct s as [|c s']; [done|].
    destruct (c =? ch "-").
    - destruct s' as [|c2 s2]; [done|].
      destruct (c2 =? ch "0"); [injection Hi as <- <-; simpl; lia|].
      destruct (is_digit c2); [|done].
      destruct (span_digits s2) as [d r'] eqn:Hs. injection Hi as <- <-.
      apply span_digits_length in Hs. simpl. lia.
    - destruct (c =? ch "0"); [injection Hi as <- <-; simpl; lia|].
      destruct (is_digit c); [|done].
      destruct (span_digits s') as [d r'] eqn:Hs. injection Hi as <- <-.
      apply span_digits_length in Hs. simpl. lia. }
  assert (H2 : forall f r2, match_frac r1 = Some (f, r2) -> (length r2 <= length r1)%nat).
  { intros f r2. unfold match_frac. destruct r1 as [|c s1]; [done|].
    destruct (c =? ch "."); [|done].
    destruct (span_digits s1) as [[|d0 d] r'] eqn:Hs; [done|].
    intros [= <- <-]. apply span_digits_length in Hs. simpl. lia. }
  assert (H3 : forall x e r3, match_exp x = Some (e, r3) -> (length r3 <= length x)%nat).
  { intros x e r3. unfold match_exp. destruct x as [|c s1]; [done|].
    destruct ((c =? ch "e") || (c =? ch "E")); [|done].
    destruct s1 as [|c' s'].
    - simpl. done.
    - destruct ((c' =? ch "-") || (c' =? ch "+")).
      + destruct (span_digits s') as [[|d0 d] r'] eqn:Hs; [done|].
        intros [= <- <-]. apply span_digits_length in Hs. simpl. lia.
      + destruct (span_digits (c' :: s')) as [[|d0 d] r'] eqn:Hs; [done|].
        intros [= <- <-]. apply span_digits_length in Hs. simpl in *. lia. }
  destruct (match_frac r1) as [[f r2]|] eqn:Hf.
  - specialize (H2 _ _ eq_refl).
    destruct (match_exp r2) as [[e r3]|] eqn:He.
    + apply H3 in He. intros [= <- <- <- <-]. lia.
    + intros [= <- <- <- <-]. lia.
  - destruct (match_exp r1) as [[e r3]|] eqn:He.
    + apply H3 in He. intros [= <- <- <- <-]. lia.
    + intros [= <- <- <- <-]. lia.
Qed.

Lemma parse_int_error integer e :
  parse_int integer = Raise e -> exists msg, e = ValueError msg.
Proof.
  unfold parse_int.
  destruct (match integer with
            | [] => (false, integer)
            | c :: d => if c =? ch "-" then (true, d) else (false, integer)
            end) as [negative digits].
  destruct (int_max_str_digits <? length digits)%nat; [|done].
  intros [= <-]. by eexists.
Qed.

Lemma shrinks_weaken s s' o :
  shrinks s o -> (length s <= length s')%nat -> shrinks s' o.
Proof. destruct o; simpl; auto with lia. Qed.

Lemma scan_once_props fuel :
  (forall s,
     shrinks s (scan_once fuel s) /\
     ((2 * length s + 1 <= fuel)%nat -> scan_once fuel s <> Exhausted)) /\
  (forall s values,
     shrinks s (array_loop fuel s values) /\
     ((2 * length s + 2 <= fuel)%nat -> array_loop fuel s values <> Exhausted)) /\
  (forall s pairs,
     shrinks s (object_loop fuel s pairs) /\
     ((2 * length s + 1 <= fuel)%nat -> object_loop fuel s pairs <> Exhausted)).
Proof.
  induction fuel as [|fuel (IHscan & IHarr & IHobj)].
  { repeat split; simpl; try exact I; intros; lia. }
  split; [|split].
  - intros [|c s']; [leaf|]. cbn [scan_once].
    destruct (c =? dquote).
    { pose proof (scanstring_shrinks s' []) as Hstr.
      destruct (scanstring s' []); try done.
      - leaf.
      - destruct Hstr as [msg ->]. leaf. }
    destruct (c =? ch "{").
    { pose proof (skip_ws_length s') as Hlen.
      destruct (skip_ws s') as [|c0 r]; [leaf|].
      destruct (c0 =? ch "}"); [leaf|].
      destruct (c0 =? dquote); [|leaf].
      destruct (IHobj r []) as [Hsh Hex]. split.
      - eapply shrinks_weaken; [done|]. simpl in *. lia.
      - intros Hfuel. apply Hex. simpl in *. lia. }
    destruct (c =? ch "[").
    { pose proof (skip_ws_length s') as Hlen.
      destruct (skip_ws s') as [|c0 r].
      - destruct (IHarr [] []) as [Hsh Hex]. split.
        + eapply shrinks_weaken; [done|]. simpl. lia.
        + intros Hfuel. apply Hex. simpl in *. lia.
      - destruct (c0 =? ch "]"); [leaf|].
        destruct (IHarr (c0 :: r) []) as [Hsh Hex]. split.
        + eapply shrinks_weaken; [done|]. simpl in *. lia.
        + intros Hfuel. apply Hex. simpl in *. lia. }
    destruct (startswith (cp "null") (c :: s')); [leaf|].
    destruct (startswith (cp "true") (c :: s')); [leaf|].
    destruct (startswith (cp "false") (c :: s')); [leaf|].
    destruct (match_number (c :: s')) as [[[[integer frac] exp] r]|] eqn:Hnum.
    { apply match_number_shrinks in Hnum.
      destruct frac, exp; try leaf.
      destruct (parse_int integer) eqn:Hint; [leaf|].
      apply parse_int_error in Hint as [msg ->]. leaf. }
    destruct (startswith (cp "NaN") (c :: s')); [leaf|].
    destruct (startswith (cp "Infinity") (c :: s')); [leaf|].
    destruct (startswith (cp "-Infinity") (c :: s')); leaf.
  - intros s values. cbn [array_loop].
    destruct (IHscan s) as [Hsh Hex].
    destruct (scan_once fuel s) as [value r| |e|] eqn:Hscan; simpl in Hsh.
    + pose proof (skip_ws_length r) as Hlen.
      destruct (skip_ws r) as [|c r'] eqn:Hskip; [leaf|].
      destruct (c =? ch "]"); [leaf|].
      destruct (c =? ch ","); [|leaf].
      pose proof (skip_ws_length r') as Hlen'.
      destruct (IHarr (skip_ws r') (value :: values)) as [Hsh' Hex']. split.
      * eapply shrinks_weaken; [done|]. simpl in *. lia.
      * intros Hfuel. apply Hex'. simpl in *. lia.
    + leaf.
    + leaf.
    + split; [exact I|]. intros Hfuel. exfalso. apply Hex; [lia|done].
  - intros s pairs. cbn [object_loop].
    pose proof (scanstring_shrinks s []) as Hstr.
    destruct (scanstring s []) as [key r| |e|]; try done.
    + pose proof (skip_ws_length r) as Hlen.
      destruct (skip_ws r) as [|c r1] eqn:Hskip; [leaf|].
      destruct (c =? ch ":"); [|leaf].
      pose proof (skip_ws_length r1) as Hlen1.
      destruct (IHscan (skip_ws r1)) as [Hsh Hex].
      destruct (scan_once fuel (skip_ws r1)) as [value r2| |e|] eqn:Hscan;
        simpl in Hsh.
      * pose proof (skip_ws_length r2) as Hlen2.
        destruct (skip_ws r2) as [|c' r3] eqn:Hskip2; [leaf|].
        destruct (c' =? ch "}"); [leaf|].
        destruct (c' =? ch ","); [|leaf].
        pose proof (skip_ws_length r3) as Hlen3.
        destruct (skip_ws r3) as [|q r4] eqn:Hskip3; [leaf|].
        destruct (q =? dquote); [|leaf].
        destruct (IHobj r4 ((key, value) :: pairs)) as [Hsh' Hex']. split.
        -- eapply shrinks_weaken; [done|]. simpl in *. lia.
        -- intros Hfuel. apply Hex'. simpl in *. lia.
      * leaf.
      * leaf.
      * split; [exact I|]. intros Hfuel. exfalso. apply Hex; [simpl in *; lia|done].
    + destruct Hstr as [msg ->]. leaf.
Qed.

(** The fuel [loads] gives the scanner is never used up. *)
Lemma loads_fuel_suffices s :
  scan_once (2 * length s + 1) (skip_ws s) <> Exhausted.
Proof.
  destruct (scan_once_props (2 * length s + 1)) as (Hscan & _ & _).
  destruct (Hscan (skip_ws s)) as [_ Hex]. apply Hex.
  pose proof (skip_ws_length s). lia.
Qed.

End JsonFacts.

(** ** The extraction step *)

Section ExtractionFacts.
Import Re Fence Json Qwen.
Implicit Types (s t pre post body : str) (m : Match).

Lemma same_prefix {A} (pre pre' a a' : list A) :
  pre ++ a = pre' ++ a' -> length pre = length pre' -> pre = pre' /\ a = a'.
Proof. intros Heq Hlen. by apply app_inj_1. Qed.

Lemma first_fenced_unique s t t' :
  first_fenced_array s t -> first_fenced_array s t' -> t = t'.
Proof.
  intros (pre & F & L & S) (pre' & F' & L' & S').
  assert (pre = pre') as <-.
  { pose proof (L _ _ F'). pose proof (L' _ _ F).
    destruct F as (_ & ws1 & ws2 & post & Hs & _).
    destruct F' as (_ & ws1' & ws2' & post' & Hs' & _).
    rewrite Hs in Hs'. apply same_prefix in Hs' as [? _]; [done|lia]. }
  pose proof (S _ F'). pose proof (S' _ F).
  destruct F as ([body ->] & ws1 & ws2 & post & Hs & H1 & H2).
  destruct F' as ([body' ->] & ws1' & ws2' & post' & Hs' & H1' & H2').
  rewrite Hs in Hs'. do 2 apply app_inv_head in Hs'.
  assert (ws1 = ws1') as <-.
  { cbn [app] in Hs'.
    apply whitespace_run_unique in Hs' as (-> & _); auto using not_whitespace_bracket. }
  apply app_inv_head in Hs'.
  apply same_prefix in Hs' as [? _]; [done|lia].
Qed.

Lemma no_closing_bracket_first body : forall body' r r',
  no_closing_bracket body = true -> no_closing_bracket body' = true ->
  body ++ ch "]" :: r = body' ++ ch "]" :: r' -> body = body'.
Proof.
  unfold no_closing_bracket.
  induction body as [|c body IH]; intros [|c' body'] r r' H1 H2 Heq;
    cbn [forallb app] in *.
  - done.
  - injection Heq as <- _. apply andb_prop in H2 as [H2 _].
    by rewrite N.eqb_refl in H2.
  - injection Heq as -> _. apply andb_prop in H1 as [H1 _].
    by rewrite N.eqb_refl in H1.
  - injection Heq as -> Heq.
    apply andb_prop in H1 as [_ H1]. apply andb_prop in H2 as [_ H2].
    f_equal. eauto.
Qed.

Lemma first_bare_unique s t t' :
  first_bare_array s t -> first_bare_array s t' -> t = t'.
Proof.
  intros (pre & body & -> & B & Hb & L) (pre' & body' & -> & B' & Hb' & L').
  pose proof (L _ _ B'). pose proof (L' _ _ B).
  destruct B as (b & post & Hb0 & Hs & _).
  destruct B' as (b' & post' & Hb0' & Hs' & _).
  rewrite Hs in Hs'. apply same_prefix in Hs' as [_ Hs']; [|lia].
  cbn [app] in Hs'. injection Hs' as Hs'.
  rewrite <- !app_assoc in Hs'. cbn [app] in Hs'.
  f_equal. f_equal. eauto using no_closing_bracket_first.
Qed.

Lemma first_fenced_has s t : first_fenced_array s t -> has_fenced_array s.
Proof. intros (pre & F & _). by exists pre, t. Qed.

Lemma first_bare_has s t : first_bare_array s t -> has_bare_array s.
Proof. intros (pre & body & _ & B & _). by exists pre, t. Qed.

(** The first strategy, in the words of [Fence]. *)
Lemma search_fenced_first s :
  match search fenced_pattern s with
  | Some m => exists t, group1 m = Some t /\ first_fenced_array s t
  | None => ~ has_fenced_array s
  end.
Proof.
  destruct (search fenced_pattern s) as [m|] eqn:Hs.
  - apply search_fenced in Hs as (pre & t & Hg & F & L & S).
    exists t. split; [done|]. by exists pre.
  - rewrite <- occurs_fenced. by apply search_None_iff.
Qed.

(** The second strategy, in the words of [Fence]. *)
Lemma search_bare_first s :
  match search bare_pattern s with
  | Some m => first_bare_array s (group0 m)
  | None => ~ has_bare_array s
  end.
Proof.
  destruct (search bare_pattern s) as [m|] eqn:Hs.
  - apply search_bare in Hs as (pre & body & Hg & B & Hb & L).
    by exists pre, body.
  - rewrite <- occurs_bare. by apply search_None_iff.
Qed.

Lemma selected_unique s t t' : selected s t -> selected s t' -> t = t'.
Proof.
  intros [F|[N B]] [F'|[N' B']].
  - eauto using first_fenced_unique.
  - destruct N'. eauto using first_fenced_has.
  - destruct N. eauto using first_fenced_has.
  - eauto using first_bare_unique.
Qed.

(** What the extraction step computes, strategy by strategy. *)
Lemma parse_objects_cases s :
  (exists t, selected s t /\
             parse_objects_from_response s = or_empty_list (loads t)) \/
  (~ has_fenced_array s /\ ~ has_bare_array s /\
   parse_objects_from_response s = Ok (JList [])).
Proof.
  unfold parse_objects_from_response.
  pose proof (search_fenced_first s) as Hf.
  destruct (search fenced_pattern s) as [m|].
  - destruct Hf as (t & -> & F). left. exists t. split; [by left|done].
  - pose proof (search_bare_first s) as Hb.
    destruct (search bare_pattern s) as [m|].
    + left. exists (group0 m). split; [by right|done].
    + by right.
Qed.

Lemma parse_objects_selected s t :
  selected s t -> parse_objects_from_response s = or_empty_list (loads t).
Proof.
  intros Hsel. destruct (parse_objects_cases s) as [(t' & Hsel' & ->)|(Nf & Nb & _)].
  - by rewrite (selected_unique _ _ _ Hsel Hsel').
  - destruct Hsel as [F|[_ B]].
    + destruct Nf. eauto using first_fenced_has.
    + destruct Nb. eauto using first_bare_has.
Qed.

Lemma selected_bracketed s t : selected s t -> bracketed t.
Proof.
  intros [(pre & (Ht & _) & _)|[_ (pre & body & -> & _)]]; [done|by exists body].
Qed.

End ExtractionFacts.

Section ExtractionClaims.
Import Re Fence Json Decoder Qwen Record.
Implicit Types (s t : str) (v : json).

Lemma scan_once_bracket fuel s :
  scan_once (S fuel) (ch "[" :: s) =
  match skip_ws s with
  | c :: r => if c =? ch "]" then Scanned (JList []) r else array_loop fuel (c :: r) []
  | [] => array_loop fuel [] []
  end.
Proof. reflexivity. Qed.

Lemma array_loop_list fuel : forall s values v r,
  array_loop fuel s values = Scanned v r -> exists l, v = JList l.
Proof.
  induction fuel as [|fuel IH]; intros s values v r; [done|]. cbn [array_loop].
  destruct (scan_once fuel s) as [value r0| | |]; try done.
  destruct (skip_ws r0) as [|c r']; [done|].
  destruct (c =? ch "]"); [intros [= <- _]; eauto|].
  destruct (c =? ch ","); [|done]. apply IH.
Qed.

(** A text that opens with a bracket decodes to a list, if it decodes. *)
Lemma loads_bracketed t v : bracketed t -> loads t = Ok v -> exists l, v = JList l.
Proof.
  intros [body ->]. unfold loads.
  change (startswith [65279] (ch "[" :: body ++ [ch "]"])) with false.
  cbn match. change (skip_ws (ch "[" :: body ++ [ch "]"]))
    with (ch "[" :: body ++ [ch "]"]).
  replace (2 * length (ch "[" :: body ++ [ch "]"]) + 1)%nat
    with (S (2 * length (ch "[" :: body ++ [ch "]"]))) by lia.
  rewrite scan_once_bracket.
  destruct (skip_ws (body ++ [ch "]"])) as [|c r].
  - destruct (array_loop _ [] []) as [obj rest| | |] eqn:Harr; try done.
    apply array_loop_list in Harr as [l ->].
    destruct (skip_ws rest); [|done]. intros [= <-]. eauto.
  - destruct (c =? ch "]").
    + destruct (skip_ws r); [|done]. intros [= <-]. eauto.
    + destruct (array_loop _ (c :: r) []) as [obj rest| | |] eqn:Harr; try done.
      apply array_loop_list in Harr as [l ->].
      destruct (skip_ws rest); [|done]. intros [= <-]. eauto.
Qed.

(** The extraction step returns a list whenever it returns. *)
Lemma parse_objects_list s v :
  parse_objects_from_response s = Ok v -> exists l, v = JList l.
Proof.
  destruct (parse_objects_cases s) as [(t & Hsel & ->)|(_ & _ & ->)].
  - unfold or_empty_list. destruct (loads t) as [v'|e] eqn:Hl.
    + intros [= <-]. eauto using loads_bracketed, selected_bracketed.
    + destruct (is_decode_or_attribute_error e); [|done]. intros [= <-]. eauto.
  - intros [= <-]. eauto.
Qed.

(** What the step returns once a text is selected, by what [json.loads]
    makes of that text. *)
Lemma parse_objects_selected_cases s t :
  selected s t ->
  (forall v, loads t = Ok v -> parse_objects_from_response s = Ok v) /\
  (forall msg, loads t = Raise (JSONDecodeError msg) ->
               parse_objects_from_response s = Ok (JList [])) /\
  (forall e, loads t = Raise e ->
             (forall msg, e <> JSONDecodeError msg) ->
             (forall msg, e <> AttributeError msg) ->
             parse_objects_from_response s = Raise e).
Proof.
  intros Hsel. rewrite (parse_objects_selected _ _ Hsel).
  split; [|split].
  - by intros v ->.
  - by intros msg ->.
  - intros e -> Hd Ha. destruct e; try done.
    + by destruct (Hd msg).
    + by destruct (Ha msg).
Qed.

(** C1.  The extraction step applies two strategies in order, and returns
    the result of the first one that matches.  When the response holds a
    fenced array, the text parsed is the first one (the shortest bracketed
    text of the leftmost fence) and the bare pattern is not consulted; only
    when the response holds no fenced array is the leftmost bare bracketed
    text parsed; with neither the step returns the empty list.  The value
    [json.loads] decodes from the chosen text is the value returned, and a
    [JSONDecodeError] on it gives the empty list. *)
Theorem parse_two_ordered_strategies s :
  (has_fenced_array s ->
   exists t, first_fenced_array s t /\
             (forall v, loads t = Ok v ->
                        parse_objects_from_response s = Ok v) /\
             (forall msg, loads t = Raise (JSONDecodeError msg) ->
                          parse_objects_from_response s = Ok (JList []))) /\
  (~ has_fenced_array s -> has_bare_array s ->
   exists t, first_bare_array s t /\
             (forall v, loads t = Ok v ->
                        parse_objects_from_response s = Ok v) /\
             (forall msg, loads t = Raise (JSONDecodeError msg) ->
                          parse_objects_from_response s = Ok (JList []))) /\
  (~ has_fenced_array s -> ~ has_bare_array s ->
   parse_objects_from_response s = Ok (JList [])).
Proof.
  destruct (parse_objects_cases s) as [(t & Hsel & _)|(Nf & Nb & Hp)].
  - destruct (parse_objects_selected_cases s t Hsel) as (Hok & Hdecode & _).
    destruct Hsel as [F|[N B]].
    + split; [by exists t|].
      split; intros Nf; destruct Nf; eauto using first_fenced_has.
    + split; [done|]. split; [by exists t|].
      intros _ Nb. destruct Nb. eauto using first_bare_has.
  - split; [done|]. split; done.
Qed.

(** The first strategy wins over the second: a bracketed text before the
    fence is not what gets parsed. *)
Example fence_before_bare_brackets :
  parse_objects_from_response (cp "[1] then " ++ Sample.fenced_reply)
  = Ok (JList [JDict Sample.watch]).
Proof. vm_compute. reflexivity. Qed.

(** C2, as the code has it.  The extraction step raises exactly when
    [json.loads] raises, on the selected text, an exception that is neither
    a [JSONDecodeError] nor an [AttributeError]: such an exception escapes,
    and nothing else does.  With no match the step returns the empty list,
    with a [JSONDecodeError] on the selected text it returns the empty list,
    and with a decoded value it returns that value. *)
Theorem parse_objects_escaping_exception s :
  (forall e, parse_objects_from_response s = Raise e ->
             (forall msg, e <> JSONDecodeError msg) /\
             (forall msg, e <> AttributeError msg) /\
             exists t, selected s t /\ loads t = Raise e) /\
  (forall t e, selected s t -> loads t = Raise e ->
               (forall msg, e <> JSONDecodeError msg) ->
               (forall msg, e <> AttributeError msg) ->
               parse_objects_from_response s = Raise e) /\
  (~ has_fenced_array s -> ~ has_bare_array s ->
   parse_objects_from_response s = Ok (JList [])) /\
  (forall t msg, selected s t -> loads t = Raise (JSONDecodeError msg) ->
                 parse_objects_from_response s = Ok (JList [])) /\
  (forall t v, selected s t -> loads t = Ok v ->
               parse_objects_from_response s = Ok v).
Proof.
  split; [|split; [|split; [|split]]].
  - intros e. destruct (parse_objects_cases s) as [(t & Hsel & ->)|(_ & _ & ->)]; [|done].
    unfold or_empty_list. destruct (loads t) as [v|e'] eqn:Hl; [done|].
    destruct (is_decode_or_attribute_error e') eqn:He; [done|].
    intros [= <-]. split; [by intros msg ->|]. split; [by intros msg ->|]. eauto.
  - intros t e Hsel Hl.
    by apply (proj2 (proj2 (parse_objects_selected_cases s t Hsel))).
  - intros Nf Nb. destruct (parse_objects_cases s) as [(t & Hsel & _)|(_ & _ & Hp)];
      [|done].
    destruct Hsel as [F|[_ B]].
    + destruct Nf. eauto using first_fenced_has.
    + destruct Nb. eauto using first_bare_has.
  - intros t msg Hsel Hl.
    by apply (proj1 (proj2 (parse_objects_selected_cases s t Hsel)) msg).
  - intros t v Hsel Hl.
    by apply (proj1 (parse_objects_selected_cases s t Hsel)).
Qed.

(** C2, as stated, fails: an array with an integer of 4301 digits matches the
    bare pattern, and [json.loads] refuses it with a [ValueError], which the
    handler of the function does not catch. *)
Lemma parse_objects_raises_on_long_integer :
  parse_objects_from_response Sample.long_integer_reply =
  Raise (ValueError
           (cp "Exceeds the limit (4300 digits) for integer string conversion: value has 4301 digits; use sys.set_int_max_str_digits() to increase the limit")).
Proof. vm_compute. reflexivity. Qed.

(** C3, as the code has it.  What the extraction step returns is a list:
    the empty list, or the items of the array that [json.loads] decoded from
    the selected text, unchecked. *)
Theorem parse_objects_returns_decoded_items s v :
  parse_objects_from_response s = Ok v ->
  exists l, v = JList l /\
            (l = [] \/ exists t, selected s t /\ loads t = Ok (JList l)).
Proof.
  intros Hp. destruct (parse_objects_list _ _ Hp) as [l ->]. exists l.
  split; [done|].
  destruct (parse_objects_cases s) as [(t & Hsel & Hp')|(_ & _ & Hp')];
    rewrite Hp' in Hp.
  - unfold or_empty_list in Hp. destruct (loads t) as [v'|e] eqn:Hl.
    + injection Hp as ->. right. eauto.
    + destruct (is_decode_or_attribute_error e); [|done].
      injection Hp as <-. by left.
  - injection Hp as <-. by left.
Qed.

Lemma parse_objects_returns_decoded_items_witness :
  exists l, JList [JDict Sample.watch] = JList l /\
            (l = [] \/ exists t, selected Sample.fenced_reply t /\
                                 loads t = Ok (JList l)).
Proof.
  apply (parse_objects_returns_decoded_items Sample.fenced_reply).
  vm_compute. reflexivity.
Defined.

(** C3, as stated, fails: for an array written over several lines without a
    fence the step returns the four coordinates of the first bounding box,
    none of which is a detection record. *)
Lemma parse_objects_returns_coordinates :
  parse_objects_from_response Sample.multiline_reply
  = Ok (JList [JInt 10; JInt 20; JInt 30; JInt 40]) /\
  forallb is_detection_record [JInt 10; JInt 20; JInt 30; JInt 40] = false /\
  loads Sample.multiline_reply = Ok (JList [JDict Sample.watch]).
Proof. vm_compute. auto. Qed.

(** C9.  A reply that holds a valid array of detection records, on one line
    and without a fence, for which the extraction step returns the empty
    list: the bare pattern stops at the first closing bracket, the one of
    the bounding box, and the text up to there is not valid JSON. *)
Theorem bare_fallback_truncates_nested_array :
  exists s,
    (exists pre array l,
       s = pre ++ array /\ loads array = Ok (JList l) /\ l <> [] /\
       forallb is_detection_record l = true) /\
    ~ has_fenced_array s /\
    (exists t msg, first_bare_array s t /\ loads t = Raise (JSONDecodeError msg)) /\
    parse_objects_from_response s = Ok (JList []).
Proof.
  exists Sample.unfenced_reply. split; [|split; [|split]].
  - exists (cp "Detected: "), Sample.array_text, [JDict Sample.watch].
    split; [reflexivity|]. split; [vm_compute; reflexivity|]. split; [done|].
    vm_compute. reflexivity.
  - pose proof (search_fenced_first Sample.unfenced_reply) as H.
    assert (search fenced_pattern Sample.unfenced_reply = None) as Hs
      by (vm_compute; reflexivity).
    by rewrite Hs in H.
  - pose proof (search_bare_first Sample.unfenced_reply) as H.
    assert (search bare_pattern Sample.unfenced_reply
            = Some {| m_start := 10; group0 := Sample.truncated_text; group1 := None |})
      as Hs by (vm_compute; reflexivity).
    rewrite Hs in H. exists Sample.truncated_text. eexists. split; [exact H|].
    vm_compute. reflexivity.
  - vm_compute. reflexivity.
Qed.

End ExtractionClaims.

(** ** The detection step *)

Section DetectionFacts.
Import Json Qwen.
Context `{Libraries}.

Lemma add_events_app w evs evs' :
  add_events (add_events w evs) evs' = add_events w (evs ++ evs').
Proof. unfold add_events. simpl. by rewrite <- app_assoc. Qed.

Lemma emit_add_events ev w : emit ev w = (Ok tt, add_events w [ev]).
Proof. reflexivity. Qed.

(** The result and the trace of the detection step, by what the libraries
    answer. *)
Lemma run_object_detection_unfold image prompt max_tokens temperature model w :
  run_object_detection image prompt max_tokens temperature model w =
  let messages := messages_for image prompt in
  let failed prefix e evs :=
    (Ok {| success := false; objects := None; response_text := None;
           error_message := Some (prefix ++ exn_str e) |},
     add_events w evs) in
  match load model with
  | Raise e => failed (cp "Error loading model: ") e [LoadCalled model]
  | Ok (model_obj, processor) =>
      match load_config model with
      | Raise e =>
          failed (cp "Error during object detection: ") e
                 [LoadCalled model; LoadConfigCalled model]
      | Ok config =>
          match apply_chat_template processor config messages with
          | Raise e =>
              failed (cp "Error during object detection: ") e
                     [LoadCalled model; LoadConfigCalled model;
                      ChatTemplateCalled messages]
          | Ok prompt_text =>
              let evs := [LoadCalled model; LoadConfigCalled model;
                          ChatTemplateCalled messages;
                          GenerateCalled max_tokens temperature] in
              match generate model_obj processor prompt_text max_tokens temperature with
              | Raise e => failed (cp "Error during generation: ") e evs
              | Ok response =>
                  match parse_objects_from_response (response_str response) with
                  | Raise e => failed (cp "Error during object detection: ") e evs
                  | Ok v =>
                      match validate_objects v with
                      | None =>
                          failed (cp "Error during object detection: ")
                                 (ValidationError (validation_error_str v)) evs
                      | Some l =>
                          (Ok {| success := true; objects := Some l;
                                 response_text := Some (response_str response);
                                 error_message := None |},
                           add_events w evs)
                      end
                  end
              end
          end
      end
  end.
Proof.
  unfold run_object_detection, failure, new_ObjectDetectionResult,
    try_except, bind, lift, ret, emit, add_events.
  cbn beta iota zeta.
  destruct (load model) as [[model_obj processor]|e]; [|done].
  cbn [files trace].
  destruct (load_config model) as [config|e];
    [|by rewrite <- !app_assoc].
  destruct (apply_chat_template _ _ _) as [prompt_text|e];
    [|by rewrite <- !app_assoc].
  cbn [files trace].
  destruct (generate _ _ _ _ _) as [response|e];
    [|by rewrite <- !app_assoc].
  destruct (parse_objects_from_response _) as [v|e];
    [|by rewrite <- !app_assoc].
  destruct (validate_objects v); by rewrite <- !app_assoc.
Qed.

End DetectionFacts.

Section DetectionClaims.
Import Json Qwen.
Context `{Libraries}.


(** The detection step always returns a result, and leaves the files
    alone: a success with the objects and the raw text, or a failure with a
    message that is not empty. *)
Lemma run_object_detection_shape image prompt max_tokens temperature model w :
  exists r w',
    run_object_detection image prompt max_tokens temperature model w = (Ok r, w') /\
    files w' = files w /\
    ((success r = true /\
      exists l text, objects r = Some l /\ response_text r = Some text) \/
     (success r = false /\
      exists msg, error_message r = Some msg /\ msg <> [])).
Proof.
  rewrite run_object_detection_unfold. cbv zeta.
  destruct (load model) as [[model_obj processor]|e];
    [|eexists _, _; do 2 (split; [done|]); right; split; [done|by eexists]].
  destruct (load_config model) as [config|e];
    [|eexists _, _; do 2 (split; [done|]); right; split; [done|by eexists]].
  destruct (apply_chat_template _ _ _) as [prompt_text|e];
    [|eexists _, _; do 2 (split; [done|]); right; split; [done|by eexists]].
  destruct (generate _ _ _ _ _) as [response|e];
    [|eexists _, _; do 2 (split; [done|]); right; split; [done|by eexists]].
  destruct (parse_objects_from_response _) as [v|e];
    [|eexists _, _; do 2 (split; [done|]); right; split; [done|by eexists]].
  destruct (validate_objects v) as [l|]; eexists _, _; do 2 (split; [done|]).
  - left. split; [done|]. by eexists _, _.
  - right. split; [done|]. by eexists.
Qed.

(** C6.  The detection step returns a result for every image, whatever the
    libraries do, and does not touch the files.  Which result is fixed by
    the first call that fails: a failing [load] gives the failure with
    "Error loading model: " and the text of its exception, a failing
    [generate] the failure with "Error during generation: " and the text of
    its exception, and every other exception on the way ([load_config],
    [apply_chat_template], the extraction step, the validation of the
    objects) the failure with "Error during object detection: " and the
    text of that exception.  Only when nothing fails is the result a
    success, with the validated objects and the raw text of the reply. *)
Theorem run_object_detection_never_raises
        image prompt max_tokens temperature model w :
  exists r w',
    run_object_detection image prompt max_tokens temperature model w = (Ok r, w') /\
    files w' = files w /\
    (forall e,
       load model = Raise e ->
       r = Contract.detection_failure (cp "Error loading model: " ++ exn_str e)) /\
    (forall model_obj processor,
       load model = Ok (model_obj, processor) ->
       (forall e,
          load_config model = Raise e ->
          r = Contract.detection_failure
                (cp "Error during object detection: " ++ exn_str e)) /\
       (forall config,
          load_config model = Ok config ->
          (forall e,
             apply_chat_template processor config (messages_for image prompt)
             = Raise e ->
             r = Contract.detection_failure
                   (cp "Error during object detection: " ++ exn_str e)) /\
          (forall prompt_text,
             apply_chat_template processor config (messages_for image prompt)
             = Ok prompt_text ->
             (forall e,
                generate model_obj processor prompt_text max_tokens temperature
                = Raise e ->
                r = Contract.detection_failure
                      (cp "Error during generation: " ++ exn_str e)) /\
             (forall response,
                generate model_obj processor prompt_text max_tokens temperature
                = Ok response ->
                (forall e,
                   parse_objects_from_response (response_str response) = Raise e ->
                   r = Contract.detection_failure
                         (cp "Error during object detection: " ++ exn_str e)) /\
                (forall v,
                   parse_objects_from_response (response_str response) = Ok v ->
                   (validate_objects v = None ->
                    r = Contract.detection_failure
                          (cp "Error during object detection: "
                           ++ validation_error_str v)) /\
                   (forall l,
                      validate_objects v = Some l ->
                      r = Contract.detection_success l (response_str response))))))).
Proof.
  rewrite run_object_detection_unfold. cbv zeta.
  destruct (load model) as [[model_obj processor]|e] eqn:Hload.
  2: { eexists _, _. do 2 (split; [done|]). split; [by intros ? [= <-]|done]. }
  destruct (load_config model) as [config|e] eqn:Hconfig.
  2: { eexists _, _. do 2 (split; [done|]). split; [done|].
       intros ? ? [= <- <-]. split; [by intros ? [= <-]|done]. }
  destruct (apply_chat_template _ _ _) as [prompt_text|e] eqn:Htemplate.
  2: { eexists _, _. do 2 (split; [done|]). split; [done|].
       intros ? ? [= <- <-]. split; [done|]. intros ? [= <-].
       rewrite Htemplate. split; [by intros ? [= <-]|done]. }
  destruct (generate _ _ _ _ _) as [response|e] eqn:Hgen.
  2: { eexists _, _. do 2 (split; [done|]). split; [done|].
       intros ? ? [= <- <-]. split; [done|]. intros ? [= <-].
       rewrite Htemplate. split; [done|]. intros ? [= <-].
       rewrite Hgen. split; [by intros ? [= <-]|done]. }
  destruct (parse_objects_from_response _) as [v|e] eqn:Hparse.
  2: { eexists _, _. do 2 (split; [done|]). split; [done|].
       intros ? ? [= <- <-]. split; [done|]. intros ? [= <-].
       rewrite Htemplate. split; [done|]. intros ? [= <-].
       rewrite Hgen. split; [done|]. intros ? [= <-].
       rewrite Hparse. split; [by intros ? [= <-]|done]. }
  destruct (validate_objects v) as [l|] eqn:Hvalid.
  - eexists _, _. do 2 (split; [done|]). split; [done|].
    intros ? ? [= <- <-]. split; [done|]. intros ? [= <-].
    rewrite Htemplate. split; [done|]. intros ? [= <-].
    rewrite Hgen. split; [done|]. intros ? [= <-].
    rewrite Hparse. split; [done|]. intros ? [= <-].
    rewrite Hvalid. split; [done|]. by intros ? [= <-].
  - eexists _, _. do 2 (split; [done|]). split; [done|].
    intros ? ? [= <- <-]. split; [done|]. intros ? [= <-].
    rewrite Htemplate. split; [done|]. intros ? [= <-].
    rewrite Hgen. split; [done|]. intros ? [= <-].
    rewrite Hparse. split; [done|]. intros ? [= <-].
    rewrite Hvalid. split; [done|]. done.
Qed.

End DetectionClaims.

(** ** The handler *)

Section HandlerFacts.
Import Api Contract.
Context `{Libraries}.
Implicit Types (file : UploadFile) (request : option ObjectDetectionRequest)
         (w : world) (image : Image).

Implicit Types detect : Image -> str -> Z -> float -> M Qwen.ObjectDetectionResult.

Lemma rejected_content_type detect file request w :
  not_an_image file = true ->
  detect_objects_with detect file request w
  = (Raise (HTTPException 400 (cp "File must be an image")), w).
Proof.
  intros Hct. unfold detect_objects_with, try_except, bind, raise.
  by rewrite Hct.
Qed.

Lemma rejected_image detect file request w :
  not_an_image file = false -> undecodable (file_bytes file) ->
  exists e,
    detect_objects_with detect file request w
    = (Raise (HTTPException 400 (cp "Invalid image file: " ++ exn_str e)), w).
Proof.
  intros Hct Hbad.
  unfold detect_objects_with, try_except, bind, raise, read, lift, ret.
  rewrite Hct. cbv beta iota.
  destruct Hbad as [[e He]|(image & e & Hopen & Hver)].
  - rewrite He. by exists e.
  - rewrite Hopen, Hver. by exists e.
Qed.

Lemma cleanup_unfold path w :
  bind (os_path_exists path)
       (fun present => if present then os_unlink path else ret tt) w
  = (Ok tt, cleaned_up path w).
Proof.
  unfold bind, os_path_exists, os_unlink, ret, cleaned_up.
  destruct (files w !! path) as [data|] eqn:Hfile.
  - rewrite bool_decide_eq_true_2 by eauto. by rewrite Hfile.
  - rewrite bool_decide_eq_false_2; [done|]. by intros [? ?].
Qed.

(** What the handler does with an upload that passes both checks. *)
Lemma detect_objects_with_validated detect file request w image :
  validated file image ->
  detect_objects_with detect file request w =
  let req := effective request in
  let (r, w2) := detect image (prompt req) (max_tokens req) (temperature req)
                        (at_detection w file req image) in
  (match r with
   | Ok result => Ok (response_of result)
   | Raise (HTTPException status_code detail) =>
       Raise (HTTPException status_code detail)
   | Raise e => Ok (internal_error e)
   end,
   cleaned_up (temp_path w) w2).
Proof.
  intros (Hct & Hopen & Hver).
  unfold detect_objects_with. fold (effective request).
  set (req := effective request). cbv zeta.
  unfold try_except at 1. unfold bind at 1. rewrite Hct.
  unfold ret at 1. unfold bind at 1. unfold read, ret at 1.
  unfold bind at 1. unfold try_except at 1. unfold bind at 1, lift at 1.
  rewrite Hopen. unfold bind at 1, lift at 1. rewrite Hver.
  unfold ret at 1. unfold bind at 1, NamedTemporaryFile_write.
  unfold try_finally. unfold bind at 1, emit at 1.
  fold (temp_path w).
  replace {| files := files {| files := <[temp_path w:=file_bytes file]> (files w);
                               trace := trace w ++ [TempFileWritten (temp_path w) (file_bytes file)] |};
             trace := trace {| files := <[temp_path w:=file_bytes file]> (files w);
                               trace := trace w ++ [TempFileWritten (temp_path w) (file_bytes file)] |}
                      ++ [DetectionCalled image (prompt req) (max_tokens req) (temperature req)] |}
    with (at_detection w file req image)
    by (unfold at_detection; cbn [files trace]; by rewrite <- app_assoc).
  unfold bind at 1.
  destruct (detect image (prompt req) (max_tokens req) (temperature req)
                   (at_detection w file req image)) as [[result|e] w2].
  - unfold response_of.
    destruct (Qwen.success result); unfold ret at 1; cbv beta iota;
      by rewrite cleanup_unfold.
  - cbv beta iota. rewrite cleanup_unfold. unfold raise, ret, internal_error.
    by destruct e.
Qed.

End HandlerFacts.

Section HandlerClaims.
Import Api Contract.
Context `{Libraries}.
Implicit Types (file : UploadFile) (request : option ObjectDetectionRequest)
         (w : world) (image : Image).
Implicit Types detect : Image -> str -> Z -> float -> M Qwen.ObjectDetectionResult.

(** An upload is rejected or validated, never both. *)
Lemma upload_cases file :
  (not_an_image file = true \/ undecodable (file_bytes file)) \/
  (exists image, validated file image).
Proof.
  destruct (not_an_image file) eqn:Hct; [by left; left|].
  destruct (Image_open (file_bytes file)) as [image|e] eqn:Hopen.
  - destruct (Image_verify image) as [[]|e] eqn:Hver.
    + right. by exists image.
    + left. right. right. by exists image, e.
  - left. right. left. by exists e.
Qed.

Lemma validated_not_rejected file image :
  validated file image ->
  ~ (not_an_image file = true \/ undecodable (file_bytes file)).
Proof.
  intros (Hct & Hopen & Hver) [Hbad|[[e He]|(image' & e & Hopen' & Hver')]];
    congruence.
Qed.

(** C4.  An upload whose content type is missing, empty or not an image
    type, and an upload that Pillow cannot open and verify, is answered with
    an [HTTPException] of status 400.  The world is left as it was: no
    temporary file was written and no call of the detection step or of the
    model library is on the trace. *)
Theorem invalid_upload_rejected_with_400 file request w :
  not_an_image file = true \/ undecodable (file_bytes file) ->
  exists detail,
    detect_objects file request w = (Raise (HTTPException 400 detail), w) /\
    http_status (Raise (HTTPException 400 detail)) = 400%Z.
Proof.
  intros Hbad. unfold detect_objects.
  destruct (not_an_image file) eqn:Hct.
  - eexists. split; [by apply rejected_content_type|done].
  - destruct Hbad as [?|Hbad]; [done|].
    destruct (rejected_image
                (fun image prompt max_tokens temperature =>
                   Qwen.run_object_detection image prompt max_tokens temperature
                                             Qwen.default_model)
                file request w Hct Hbad) as [e ->].
    by eexists.
Qed.

(** A validated upload gets a well-formed payload. *)
Lemma validated_upload_payload file request w image :
  validated file image ->
  exists payload w',
    detect_objects file request w = (Ok payload, w') /\ well_formed payload.
Proof.
  intros Hval.
  unfold detect_objects. rewrite (detect_objects_with_validated _ _ _ _ _ Hval).
  cbv zeta.
  destruct (run_object_detection_shape image
              (prompt (effective request)) (max_tokens (effective request))
              (temperature (effective request)) Qwen.default_model
              (at_detection w file (effective request) image))
    as (r & w2 & Hrun & _ & Hcases).
  rewrite Hrun. eexists _, _. split; [done|].
  unfold response_of.
  destruct Hcases as [(Hs & l & text & Hl & Ht)|(Hs & msg & Hm & Hne)]; rewrite Hs.
  - left. split; [done|]. by exists l, text.
  - right. split; [done|]. by exists msg.
Qed.

(** C5.  For an upload that passes both checks the handler returns the
    payload of what the detection step returned: for a success the payload
    is a success with the objects and the raw text of that result, for a
    failure it is a failure with the message of that result, which is not
    empty.  The detection step of the repository always returns; and
    whatever a detection step were to raise, short of an [HTTPException]
    (which the handler raises again), the handler would turn it into the
    failure payload with "Internal server error: " and the text of the
    exception. *)
Theorem validated_request_gets_payload file request w image :
  validated file image ->
  (exists r w2,
     Qwen.run_object_detection image (prompt (effective request))
       (max_tokens (effective request)) (temperature (effective request))
       Qwen.default_model (at_detection w file (effective request) image)
     = (Ok r, w2) /\
     ((Qwen.success r = true /\
       exists l text,
         Qwen.objects r = Some l /\ Qwen.response_text r = Some text /\
         detect_objects file request w
         = (Ok {| success := true; objects := Some l;
                  response_text := Some text; error_message := None |},
            cleaned_up (temp_path w) w2)) \/
      (Qwen.success r = false /\
       exists msg,
         Qwen.error_message r = Some msg /\ msg <> [] /\
         detect_objects file request w
         = (Ok {| success := false; objects := None;
                  response_text := None; error_message := Some msg |},
            cleaned_up (temp_path w) w2)))) /\
  (forall detect e w2,
     (forall status_code detail, e <> HTTPException status_code detail) ->
     detect image (prompt (effective request)) (max_tokens (effective request))
            (temperature (effective request))
            (at_detection w file (effective request) image) = (Raise e, w2) ->
     detect_objects_with detect file request w
     = (Ok {| success := false; objects := None; response_text := None;
              error_message := Some (cp "Internal server error: " ++ exn_str e) |},
        cleaned_up (temp_path w) w2)).
Proof.
  intros Hval. split.
  - unfold detect_objects. rewrite (detect_objects_with_validated _ _ _ _ _ Hval).
    cbv zeta.
    destruct (run_object_detection_shape image
                (prompt (effective request)) (max_tokens (effective request))
                (temperature (effective request)) Qwen.default_model
                (at_detection w file (effective request) image))
      as (r & w2 & Hrun & _ & Hcases).
    rewrite Hrun. exists r, w2. split; [done|]. unfold response_of.
    destruct Hcases as [(Hs & l & text & Hl & Ht)|(Hs & msg & Hm & Hne)]; rewrite Hs.
    + left. split; [done|]. exists l, text. by rewrite Hl, Ht.
    + right. split; [done|]. exists msg. by rewrite Hm.
  - intros detect e w2 Hne Hrun.
    rewrite (detect_objects_with_validated _ _ _ _ _ Hval). cbv zeta.
    rewrite Hrun. destruct e; try done. by destruct (Hne status_code detail).
Qed.




(** C10.  When the detection step reports a failure for a validated upload,
    the handler returns the failure payload with that message, which FastAPI
    sends with status 200.  Taken over all requests, the handler raises an
    [HTTPException] of status 400 exactly for the uploads that fail one of
    the two checks, and returns a payload, sent with status 200, for all
    others. *)
Theorem detection_failure_is_http_200 file request w :
  (forall image r w2,
     validated file image ->
     Qwen.run_object_detection image (prompt (effective request))
       (max_tokens (effective request)) (temperature (effective request))
       Qwen.default_model (at_detection w file (effective request) image)
     = (Ok r, w2) ->
     Qwen.success r = false ->
     detect_objects file request w
     = (Ok {| success := false; objects := None; response_text := None;
              error_message := Qwen.error_message r |},
        cleaned_up (temp_path w) w2) /\
     http_status (fst (detect_objects file request w)) = 200%Z) /\
  (((not_an_image file = true \/ undecodable (file_bytes file)) /\
    exists detail,
      fst (detect_objects file request w) = Raise (HTTPException 400 detail)) \/
   ((exists image, validated file image) /\
    exists payload,
      fst (detect_objects file request w) = Ok payload /\
      http_status (fst (detect_objects file request w)) = 200%Z)).
Proof.
  split.
  - intros image r w2 Hval Hrun Hfail.
    unfold detect_objects. rewrite (detect_objects_with_validated _ _ _ _ _ Hval).
    cbv zeta. rewrite Hrun. unfold response_of. by rewrite Hfail.
  - destruct (upload_cases file) as [Hbad|[image Hval]].
    + left. split; [done|]. unfold detect_objects.
      destruct (not_an_image file) eqn:Hct.
      * rewrite rejected_content_type by done. by eexists.
      * destruct Hbad as [?|Hbad]; [done|].
        destruct (rejected_image
                    (fun image prompt max_tokens temperature =>
                       Qwen.run_object_detection image prompt max_tokens
                                                 temperature Qwen.default_model)
                    file request w Hct Hbad) as [e ->].
        by eexists.
    + right. split; [by exists image|].
      destruct (validated_upload_payload file request w image Hval)
        as (payload & w' & -> & _). by exists payload.
Qed.

End HandlerClaims.

(** ** The handler on the sample inputs *)

Section Witnesses.
Import Api Contract.

Lemma sample_upload_validated : validated (H := Sample.libraries) Sample.upload Sample.png.
Proof. repeat split. Qed.

Lemma invalid_upload_rejected_with_400_witness :
  exists detail,
    detect_objects (H := Sample.libraries) Sample.text_upload None Sample.empty_world
    = (Raise (HTTPException 400 detail), Sample.empty_world) /\
    http_status (Raise (HTTPException 400 detail)) = 400%Z.
Proof.
  apply (invalid_upload_rejected_with_400 (H := Sample.libraries)).
  left. reflexivity.
Defined.

Lemma validated_request_gets_payload_witness :
  exists r w2,
    Qwen.run_object_detection (H := Sample.libraries) Sample.png
      (prompt (effective None)) (max_tokens (effective None))
      (temperature (effective None)) Qwen.default_model
      (at_detection (H := Sample.libraries) Sample.empty_world Sample.upload
                    (effective None) Sample.png)
    = (Ok r, w2) /\
    ((Qwen.success r = true /\
      exists l text,
        Qwen.objects r = Some l /\ Qwen.response_text r = Some text /\
        detect_objects (H := Sample.libraries) Sample.upload None Sample.empty_world
        = (Ok {| success := true; objects := Some l;
                 response_text := Some text; error_message := None |},
           cleaned_up (temp_path (H := Sample.libraries) Sample.empty_world) w2)) \/
     (Qwen.success r = false /\
      exists msg,
        Qwen.error_message r = Some msg /\ msg <> [] /\
        detect_objects (H := Sample.libraries) Sample.upload None Sample.empty_world
        = (Ok {| success := false; objects := None;
                 response_text := None; error_message := Some msg |},
           cleaned_up (temp_path (H := Sample.libraries) Sample.empty_world) w2))).
Proof.
  apply (validated_request_gets_payload (H := Sample.libraries)
           Sample.upload None Sample.empty_world Sample.png).
  repeat split.
Defined.



(** The handler on the sample upload, run: the reply of the sample model is
    parsed into one record. *)
Example sample_request_succeeds :
  fst (detect_objects (H := Sample.libraries) Sample.upload None Sample.empty_world)
  = Ok {| success := true;
          objects := Some [Sample.watch];
          response_text := Some Sample.fenced_reply;
          error_message := None |}.
Proof.
  unfold detect_objects.
  rewrite (detect_objects_with_validated _ _ _ _ _ sample_upload_validated).
  cbv beta zeta. rewrite run_object_detection_unfold. reflexivity.
Qed.

(** With a model that cannot be loaded the same request is answered with a
    failure payload, not with an HTTP error. *)
Example broken_model_reported_in_payload :
  fst (detect_objects (H := Sample.broken_libraries) Sample.upload None
         Sample.empty_world)
  = Ok {| success := false; objects := None; response_text := None;
          error_message := Some (cp "Error loading model: model not found") |}.
Proof.
  unfold detect_objects.
  rewrite (detect_objects_with_validated (H := Sample.broken_libraries)
             _ _ _ _ Sample.png) by repeat split.
  cbv beta zeta. rewrite run_object_detection_unfold. reflexivity.
Qed.

(** 0.7 and 0.1 as binary64 numbers: 7/10 and 1/10, rounded to nearest. *)
Example default_temperature_is_seven_tenths :
  Api.default_temperature
  = SFdiv 53 1024 (S754_finite false 7 0) (S754_finite false 10 0).
Proof. reflexivity. Qed.

Example detection_default_temperature_is_one_tenth :
  Qwen.default_temperature
  = SFdiv 53 1024 (S754_finite false 1 0) (S754_finite false 10 0).
Proof. reflexivity. Qed.

End Witnesses.

(** ** The extraction step on replies of a known shape *)

Section ReplyShapes.
Import Re Fence Json Qwen Reply.
Implicit Types (s t pre post body ws : str).

Lemma no_backtick_app w1 w2 :
  no_backtick (w1 ++ w2) = no_backtick w1 && no_backtick w2.
Proof. apply forallb_app. Qed.

Lemma no_backtick_cons c w :
  no_backtick (c :: w) = negb (c =? ch "`") && no_backtick w.
Proof. reflexivity. Qed.

Lemma backtick_inside w1 w2 : no_backtick (w1 ++ ch "`" :: w2) = false.
Proof.
  rewrite no_backtick_app, no_backtick_cons, N.eqb_refl. cbn [negb andb].
  apply andb_false_r.
Qed.

(** A text that ends in a character that is not white space splits into
    leading white space and a rest that starts with such a character. *)
Lemma leading_whitespace w z :
  is_whitespace z = false ->
  exists lead y rest,
    w ++ [z] = lead ++ y :: rest /\ all_whitespace lead = true /\
    is_whitespace y = false /\ In y (w ++ [z]).
Proof.
  intros Hz. induction w as [|c w IH]; cbn [app].
  - exists [], z, []. repeat split; auto. by left.
  - destruct (is_whitespace c) eqn:Hc.
    + destruct IH as (lead & y & rest & Heq & Hl & Hy & Hin).
      exists (c :: lead), y, rest. cbn [app]. split; [by rewrite Heq|].
      split; [|split; [done|by right]].
      unfold all_whitespace in *. cbn [forallb]. by rewrite Hc.
    + exists [], c, (w ++ [z]). repeat split; auto. by left.
Qed.

Lemma no_backtick_In w : no_backtick w = true -> ~ In (ch "`") w.
Proof.
  unfold no_backtick. rewrite forallb_forall. intros Hall Hin.
  apply Hall in Hin. by rewrite N.eqb_refl in Hin.
Qed.

(** In a reply that has no back quote before the fence and none in the
    fenced text, that text is what the first strategy picks. *)
Lemma fenced_text_is_first pre ws1 t ws2 post :
  no_backtick pre = true -> bracketed t -> no_backtick t = true ->
  all_whitespace ws1 = true -> all_whitespace ws2 = true ->
  first_fenced_array (pre ++ cp "```json" ++ ws1 ++ t ++ ws2 ++ cp "```" ++ post) t.
Proof.
  intros Hpre Ht Hnb H1 H2. exists pre. split; [|split].
  - split; [done|]. by exists ws1, ws2, post.
  - intros pre' t' (_ & ws1' & ws2' & post' & Heq & _).
    destruct (decide (length pre' < length pre)%nat) as [Hlt|]; [|lia].
    exfalso. cbn [cp app] in Heq.
    destruct (app_cons_shorter _ _ _ _ _ _ Heq Hlt) as (b & -> & _).
    by rewrite backtick_inside in Hpre.
  - intros t' ([body' ->] & ws1' & ws2' & post' & Heq & H1' & H2').
    destruct Ht as [body ->].
    do 2 apply app_inv_head in Heq.
    cbn [app] in Heq.
    apply whitespace_run_unique in Heq as (<- & _ & Heq);
      auto using not_whitespace_bracket.
    destruct (decide (length body' < length body)%nat) as [Hlt|Hge];
      [|cbn [length]; rewrite !length_app; cbn [length]; lia].
    exfalso. rewrite <- !app_assoc in Heq. cbn [app] in Heq.
    destruct (app_cons_shorter _ _ _ _ _ _ Heq Hlt) as (b & -> & Hrest).
    (* after the shorter text: the rest of [t], then the closing fence *)
    destruct (leading_whitespace b (ch "]") eq_refl)
      as (lead & y & rest & Hb & Hlead & Hy & Hin).
    assert (Hrest' : ws2' ++ ch "`" :: (cp "``" ++ post')
                     = lead ++ y :: (rest ++ ws2 ++ cp "```" ++ post)).
    { cbn [cp app] in *. rewrite Hrest.
      change (b ++ ch "]" :: ws2 ++ ch "`" :: ch "`" :: ch "`" :: post)
        with (b ++ [ch "]"] ++ ws2 ++ ch "`" :: ch "`" :: ch "`" :: post).
      rewrite app_assoc, Hb. by rewrite <- app_assoc. }
    apply whitespace_run_unique in Hrest' as (_ & <- & _); auto.
    apply no_backtick_In in Hnb. apply Hnb.
    apply in_cons. rewrite <- app_assoc. apply in_or_app. right.
    apply in_cons. exact Hin.
Qed.

(** X1.  A reply in the format the system prompt asks for is decoded as a
    whole: when no back quote stands before the fence or inside the fenced
    text, the extraction step returns the value [json.loads] decodes from
    that text, nested arrays included, whatever follows the closing fence;
    and it returns the empty list when [json.loads] rejects that text with a
    [JSONDecodeError]. *)
Theorem fenced_reply_is_decoded pre ws1 t ws2 post :
  no_backtick pre = true -> bracketed t -> no_backtick t = true ->
  all_whitespace ws1 = true -> all_whitespace ws2 = true ->
  (forall v,
     loads t = Ok v ->
     parse_objects_from_response
       (pre ++ cp "```json" ++ ws1 ++ t ++ ws2 ++ cp "```" ++ post)
     = Ok v) /\
  (forall msg,
     loads t = Raise (JSONDecodeError msg) ->
     parse_objects_from_response
       (pre ++ cp "```json" ++ ws1 ++ t ++ ws2 ++ cp "```" ++ post)
     = Ok (JList [])).
Proof.
  intros Hpre Ht Hnb H1 H2.
  assert (Hsel : selected
            (pre ++ cp "```json" ++ ws1 ++ t ++ ws2 ++ cp "```" ++ post) t)
    by (left; by apply fenced_text_is_first).
  destruct (parse_objects_selected_cases _ _ Hsel) as (Hok & Hdecode & _).
  by split.
Qed.

Lemma bracketed_has_brackets t : bracketed t -> In (ch "[") t /\ In (ch "]") t.
Proof.
  intros [body ->]. split; [by left|]. right. apply in_or_app. right. by left.
Qed.

(** X2.  A reply without an opening bracket, or without a closing one, gives
    the empty list: the empty reply, plain prose, a JSON object. *)
Theorem reply_without_brackets_gives_empty_list s :
  ~ In (ch "[") s \/ ~ In (ch "]") s ->
  parse_objects_from_response s = Ok (JList []).
Proof.
  intros Hno.
  assert (Hin : forall pre t post, s = pre ++ t ++ post -> bracketed t -> False).
  { intros pre t post -> [Ho Hc]%bracketed_has_brackets.
    destruct Hno as [Hno|Hno]; apply Hno; apply in_or_app; right;
      apply in_or_app; by left. }
  destruct (parse_objects_cases s) as [(t & Hsel & _)|(_ & _ & Hp)]; [|done].
  exfalso. destruct Hsel as [(pre & (Ht & ws1 & ws2 & post & Hs & _) & _)
                            |[_ (pre & body & -> & (b & post & _ & Hs & _) & _)]].
  - apply (Hin (pre ++ cp "```json" ++ ws1) t (ws2 ++ cp "```" ++ post)); [|done].
    rewrite Hs. by rewrite <- !app_assoc.
  - apply (Hin pre (ch "[" :: body ++ [ch "]"]) post Hs). by exists body.
Qed.

Lemma first_flat_array_selected pre body post :
  no_backtick (pre ++ ch "[" :: body ++ ch "]" :: post) = true ->
  ~ In (ch "[") pre ->
  no_newline body = true -> no_closing_bracket body = true ->
  selected (pre ++ ch "[" :: body ++ ch "]" :: post) (ch "[" :: body ++ [ch "]"]).
Proof.
  intros Hnb Hpre Hnl Hcb. right. split.
  - intros (pre' & t & _ & ws1 & ws2 & post' & Heq & _).
    rewrite Heq in Hnb. cbn [cp app] in Hnb. by rewrite backtick_inside in Hnb.
  - exists pre, body. split; [done|]. split; [|split; [done|]].
    + exists body, post. split; [done|]. split; [|done].
      f_equal. cbn [app]. by rewrite <- app_assoc.
    + intros pre' t' (body' & post' & -> & Heq & _).
      destruct (decide (length pre' < length pre)%nat) as [Hlt|]; [|lia].
      exfalso. cbn [app] in Heq.
      destruct (app_cons_shorter _ _ _ _ _ _ Heq Hlt) as (b & -> & _).
      apply Hpre. apply in_or_app. right. by left.
Qed.

(** X3.  In a reply without back quotes the first opening bracket decides:
    when the text from there to the next closing bracket stays on one line,
    the step returns the value [json.loads] decodes from that text, or the
    empty list when [json.loads] rejects it with a [JSONDecodeError]; what
    follows that text, further arrays included, is ignored. *)
Theorem first_flat_array_is_decoded pre body post :
  no_backtick (pre ++ ch "[" :: body ++ ch "]" :: post) = true ->
  ~ In (ch "[") pre ->
  no_newline body = true -> no_closing_bracket body = true ->
  (forall v,
     loads (ch "[" :: body ++ [ch "]"]) = Ok v ->
     parse_objects_from_response (pre ++ ch "[" :: body ++ ch "]" :: post)
     = Ok v) /\
  (forall msg,
     loads (ch "[" :: body ++ [ch "]"]) = Raise (JSONDecodeError msg) ->
     parse_objects_from_response (pre ++ ch "[" :: body ++ ch "]" :: post)
     = Ok (JList [])).
Proof.
  intros Hnb Hpre Hnl Hcb.
  destruct (parse_objects_selected_cases _ _
              (first_flat_array_selected pre body post Hnb Hpre Hnl Hcb))
    as (Hok & Hdecode & _).
  by split.
Qed.

End ReplyShapes.

(** ** From the reply of the model to the payload of the endpoint *)

Section ReplyToPayload.
Import Re Fence Json Reply Api Contract.
Context `{Libraries}.
Implicit Types (file : UploadFile) (request : option ObjectDetectionRequest)
         (w : world) (image : Image).

(** The payload for a validated upload once the model has answered: it
    depends on the reply alone. *)
Lemma answered_request_payload file request w image
      model_obj processor config prompt_text response :
  validated file image ->
  load Qwen.default_model = Ok (model_obj, processor) ->
  load_config Qwen.default_model = Ok config ->
  apply_chat_template processor config
    (Qwen.messages_for image (prompt (effective request))) = Ok prompt_text ->
  generate model_obj processor prompt_text (max_tokens (effective request))
           (temperature (effective request)) = Ok response ->
  fst (detect_objects file request w) =
  Ok match Qwen.parse_objects_from_response (response_str response) with
     | Raise e =>
         {| success := false; objects := None; response_text := None;
            error_message := Some (cp "Error during object detection: "
                                   ++ exn_str e) |}
     | Ok v =>
         match Qwen.validate_objects v with
         | Some l =>
             {| success := true; objects := Some l;
                response_text := Some (response_str response);
                error_message := None |}
         | None =>
             {| success := false; objects := None; response_text := None;
                error_message := Some (cp "Error during object detection: "
                                       ++ validation_error_str v) |}
         end
     end.
Proof.
  intros Hval Hload Hconfig Htemplate Hgen.
  unfold detect_objects. rewrite (detect_objects_with_validated _ _ _ _ _ Hval).
  cbv zeta. rewrite run_object_detection_unfold. cbv zeta.
  rewrite Hload, Hconfig, Htemplate, Hgen.
  destruct (Qwen.parse_objects_from_response _) as [v|e]; [|done].
  by destruct (Qwen.validate_objects v).
Qed.

Lemma validate_objects_dicts dicts :
  Qwen.validate_objects (JList (map JDict dicts)) = Some dicts.
Proof.
  cbn [Qwen.validate_objects].
  induction dicts as [|d dicts IH]; [done|].
  cbn [map]. change (mapM Qwen.as_dict (JDict d :: map JDict dicts))
    with (x ← Some d; k ← mapM Qwen.as_dict (map JDict dicts); mret (x :: k)).
  by rewrite IH.
Qed.

(** X4.  End to end, for a reply in the format the system prompt asks for:
    when the upload passes both checks, the four library calls succeed and
    the fenced text is a JSON array of objects, the endpoint answers with
    success, exactly those objects in their order, and the raw reply. *)
Theorem fenced_reply_reaches_the_client file request w image
        model_obj processor config prompt_text response
        pre ws1 t ws2 post dicts :
  validated file image ->
  load Qwen.default_model = Ok (model_obj, processor) ->
  load_config Qwen.default_model = Ok config ->
  apply_chat_template processor config
    (Qwen.messages_for image (prompt (effective request))) = Ok prompt_text ->
  generate model_obj processor prompt_text (max_tokens (effective request))
           (temperature (effective request)) = Ok response ->
  response_str response
  = pre ++ cp "```json" ++ ws1 ++ t ++ ws2 ++ cp "```" ++ post ->
  no_backtick pre = true -> bracketed t -> no_backtick t = true ->
  all_whitespace ws1 = true -> all_whitespace ws2 = true ->
  loads t = Ok (JList (map JDict dicts)) ->
  fst (detect_objects file request w)
  = Ok {| success := true; objects := Some dicts;
          response_text := Some (response_str response);
          error_message := None |}.
Proof.
  intros Hval Hload Hconfig Htemplate Hgen Hshape Hpre Ht Hnb H1 H2 Hloads.
  rewrite (answered_request_payload _ _ _ _ _ _ _ _ _
             Hval Hload Hconfig Htemplate Hgen).
  rewrite Hshape at 1.
  rewrite (parse_objects_selected _ t)
    by (left; by apply fenced_text_is_first).
  rewrite Hloads. cbn [Qwen.or_empty_list].
  by rewrite validate_objects_dicts.
Qed.

(** X5.  A reply whose array holds anything but objects never reaches the
    client as a success: when the extraction step returns a list with an
    item that is not a [dict], the endpoint answers HTTP 200 with
    [success = False], no objects, no raw text, and the validation error of
    pydantic as message. *)
Theorem non_object_items_are_reported file request w image
        model_obj processor config prompt_text response l x :
  validated file image ->
  load Qwen.default_model = Ok (model_obj, processor) ->
  load_config Qwen.default_model = Ok config ->
  apply_chat_template processor config
    (Qwen.messages_for image (prompt (effective request))) = Ok prompt_text ->
  generate model_obj processor prompt_text (max_tokens (effective request))
           (temperature (effective request)) = Ok response ->
  Qwen.parse_objects_from_response (response_str response) = Ok (JList l) ->
  In x l -> Qwen.as_dict x = None ->
  fst (detect_objects file request w)
  = Ok {| success := false; objects := None; response_text := None;
          error_message := Some (cp "Error during object detection: "
                                 ++ validation_error_str (JList l)) |} /\
  http_status (fst (detect_objects file request w)) = 200%Z.
Proof.
  intros Hval Hload Hconfig Htemplate Hgen Hparse Hin Hx.
  rewrite (answered_request_payload _ _ _ _ _ _ _ _ _
             Hval Hload Hconfig Htemplate Hgen).
  rewrite Hparse. cbn [Qwen.validate_objects].
  rewrite (mapM_None_2 Qwen.as_dict l); [done|].
  apply Exists_exists. exists x. split; [|done]. by apply list_elem_of_In.
Qed.

End ReplyToPayload.

Section DetectionOrder.
Import Json Qwen.
Context `{Libraries}.

(** X6.  The detection step calls [generate] at most once, with the
    [max_tokens] and [temperature] it was given, and only after [load],
    [load_config] and [apply_chat_template] have succeeded; when one of them
    fails the model is not run and the result is a failure. *)
Theorem generate_runs_after_preparation
        image prompt max_tokens temperature model w :
  exists r evs,
    run_object_detection image prompt max_tokens temperature model w
    = (Ok r, add_events w evs) /\
    ((evs = [LoadCalled model; LoadConfigCalled model;
             ChatTemplateCalled (messages_for image prompt);
             GenerateCalled max_tokens temperature] /\
      exists model_obj processor config prompt_text,
        load model = Ok (model_obj, processor) /\
        load_config model = Ok config /\
        apply_chat_template processor config (messages_for image prompt)
        = Ok prompt_text) \/
     ((forall n t, ~ In (GenerateCalled n t) evs) /\
      success r = false /\
      exists e, load model = Raise e \/ load_config model = Raise e \/
                exists model_obj processor config,
                  load model = Ok (model_obj, processor) /\
                  load_config model = Ok config /\
                  apply_chat_template processor config
                    (messages_for image prompt) = Raise e)).
Proof.
  rewrite run_object_detection_unfold. cbv zeta.
  destruct (load model) as [[model_obj processor]|e] eqn:Hload.
  2: { eexists _, _. split; [done|]. right. split; [|split; [done|]].
       - intros n t [?|[]]. discriminate.
       - exists e. by left. }
  destruct (load_config model) as [config|e] eqn:Hconfig.
  2: { eexists _, _. split; [done|]. right. split; [|split; [done|]].
       - intros n t [?|[?|[]]]; discriminate.
       - exists e. right. by left. }
  destruct (apply_chat_template _ _ _) as [prompt_text|e] eqn:Htemplate.
  2: { eexists _, _. split; [done|]. right. split; [|split; [done|]].
       - intros n t [?|[?|[?|[]]]]; discriminate.
       - exists e. right. right. by exists model_obj, processor, config. }
  assert (Hprep : exists model_obj0 processor0 config0 prompt_text0,
             Ok (model_obj, processor) = Ok (model_obj0, processor0) /\
             Ok config = Ok config0 /\
             apply_chat_template processor0 config0 (messages_for image prompt)
             = Ok prompt_text0)
    by (by exists model_obj, processor, config, prompt_text).
  destruct (generate _ _ _ _ _) as [response|e];
    [|eexists _, _; split; [done|]; by left].
  destruct (parse_objects_from_response _) as [v|e];
    [|eexists _, _; split; [done|]; by left].
  destruct (validate_objects v); eexists _, _; (split; [done|]); by left.
Qed.

End DetectionOrder.

(** ** [str.strip] and [base64.b64encode] *)

Section PyFacts.
Import Re Fence Py.
Implicit Types (s p lead trail : str) (data : bytes).

Lemma all_whitespace_app w1 w2 :
  all_whitespace (w1 ++ w2) = all_whitespace w1 && all_whitespace w2.
Proof. apply forallb_app. Qed.

Lemma all_whitespace_rev w : all_whitespace (rev w) = all_whitespace w.
Proof.
  induction w as [|c w IH]; [done|].
  cbn [rev]. rewrite all_whitespace_app, IH. unfold all_whitespace.
  cbn [forallb]. rewrite andb_true_r. apply andb_comm.
Qed.

Lemma lstrip_split s :
  exists lead, s = lead ++ lstrip s /\ all_whitespace lead = true.
Proof.
  induction s as [|c s (lead & Heq & Hlead)]; [by exists []|].
  cbn [lstrip]. destruct (is_whitespace c) eqn:Hc.
  - exists (c :: lead). cbn [app]. split; [by rewrite <- Heq|].
    unfold all_whitespace in *. cbn [forallb]. by rewrite Hc.
  - by exists [].
Qed.

Lemma lstrip_head s c r : lstrip s = c :: r -> is_whitespace c = false.
Proof.
  induction s as [|c' s IH]; [done|]. cbn [lstrip].
  destruct (is_whitespace c') eqn:Hc; [done|]. by intros [= <- _].
Qed.

Lemma lstrip_nil s : lstrip s = [] <-> all_whitespace s = true.
Proof.
  unfold all_whitespace. induction s as [|c s IH]; [done|].
  cbn [lstrip forallb]. destruct (is_whitespace c); [done|]. split; discriminate.
Qed.

Lemma lstrip_fixed c s : is_whitespace c = false -> lstrip (c :: s) = c :: s.
Proof. intros Hc. cbn [lstrip]. by rewrite Hc. Qed.

Lemma rstrip_split s :
  exists trail, s = rstrip s ++ trail /\ all_whitespace trail = true.
Proof.
  destruct (lstrip_split (rev s)) as (lead & Heq & Hlead).
  exists (rev lead). split; [|by rewrite all_whitespace_rev].
  unfold rstrip. rewrite <- rev_app_distr, <- Heq. by rewrite rev_involutive.
Qed.

Lemma rstrip_last s p z : rstrip s = p ++ [z] -> is_whitespace z = false.
Proof.
  unfold rstrip. intros Heq. apply (f_equal (@rev _)) in Heq.
  rewrite rev_involutive, rev_app_distr in Heq. by apply lstrip_head in Heq.
Qed.

Lemma rstrip_nil s : rstrip s = [] <-> all_whitespace s = true.
Proof.
  unfold rstrip. rewrite <- (all_whitespace_rev s), <- lstrip_nil. split.
  - intros Heq. apply (f_equal (@rev _)) in Heq. by rewrite rev_involutive in Heq.
  - by intros ->.
Qed.

Lemma rstrip_fixed p z : is_whitespace z = false -> rstrip (p ++ [z]) = p ++ [z].
Proof.
  intros Hz. unfold rstrip. rewrite rev_app_distr. cbn [rev app].
  rewrite lstrip_fixed by done.
  change (z :: rev p) with ([z] ++ rev p). rewrite rev_app_distr.
  by rewrite rev_involutive.
Qed.

(** [strip] gives the empty text exactly for white space. *)
Lemma strip_nil s : strip s = [] <-> all_whitespace s = true.
Proof.
  unfold strip. rewrite rstrip_nil.
  destruct (lstrip_split s) as (lead & Heq & Hlead).
  rewrite Heq at 2. rewrite all_whitespace_app, Hlead. done.
Qed.

(** What [strip] leaves: the text between leading and trailing white space,
    empty or with a first and a last character that are not white space. *)
Lemma strip_spec s :
  exists lead trail,
    s = lead ++ strip s ++ trail /\
    all_whitespace lead = true /\ all_whitespace trail = true /\
    (strip s = [] \/
     exists c z, head (strip s) = Some c /\ last (strip s) = Some z /\
                 is_whitespace c = false /\ is_whitespace z = false).
Proof.
  destruct (lstrip_split s) as (lead & Heq & Hlead).
  destruct (rstrip_split (lstrip s)) as (trail & Heq' & Htrail).
  exists lead, trail. fold (strip s) in Heq'.
  split; [by rewrite <- Heq', <- Heq|]. do 2 (split; [done|]).
  destruct (strip s) as [|c p] eqn:Hp; [by left|]. right.
  destruct (exists_last (l := c :: p) ltac:(done)) as (p' & z & Hz).
  exists c, z. split; [done|]. split; [by rewrite Hz, last_snoc|]. split.
  - apply (lstrip_head s c (p ++ trail)). by rewrite Heq'.
  - apply (rstrip_last (lstrip s) p'). fold (strip s). by rewrite Hp.
Qed.

(** A text that starts and ends with characters that are not white space
    is its own [strip]. *)
Lemma strip_fixed p c z :
  head p = Some c -> last p = Some z ->
  is_whitespace c = false -> is_whitespace z = false -> strip p = p.
Proof.
  intros Hc Hz Hcw Hzw. unfold strip.
  destruct p as [|c' p]; [done|]. injection Hc as ->.
  rewrite lstrip_fixed by done.
  destruct (exists_last (l := c :: p) ltac:(done)) as (p' & z' & Heq).
  rewrite Heq in Hz |- *. rewrite last_snoc in Hz. injection Hz as ->.
  by apply rstrip_fixed.
Qed.

Lemma b64_char_ok n : is_b64_char (b64_char n) = true.
Proof.
  unfold b64_char.
  destruct (N.ltb_spec n 26); [|destruct (N.ltb_spec n 52);
    [|destruct (N.ltb_spec n 62); [|destruct (n =? 62); [done|done]]]];
    unfold is_b64_char;
    rewrite ?orb_true_iff, ?andb_true_iff, ?N.leb_le; lia.
Qed.

Lemma b64encode_facts_bounded n : forall data,
  (length data <= n)%nat ->
  forallb is_b64_char (b64encode data) = true /\
  length (b64encode data) = (4 * ((length data + 2) / 3))%nat.
Proof.
  induction n as [n IH] using lt_wf_ind.
  intros [|a [|b [|c rest]]] Hlen; cbn [b64encode forallb length].
  - done.
  - by rewrite !b64_char_ok.
  - by rewrite !b64_char_ok.
  - destruct (IH (length rest)) with (data := rest) as [Hchars Hlength];
      [cbn [length] in Hlen; lia|done|].
    rewrite !b64_char_ok, Hchars, Hlength. split; [done|].
    replace (S (S (S (length rest))) + 2)%nat
      with (length rest + 2 + 1 * 3)%nat by lia.
    rewrite Nat.div_add by lia. lia.
Qed.

Lemma b64encode_chars data : forallb is_b64_char (b64encode data) = true.
Proof. by apply (b64encode_facts_bounded (length data)). Qed.

Lemma b64encode_length data :
  length (b64encode data) = (4 * ((length data + 2) / 3))%nat.
Proof. by apply (b64encode_facts_bounded (length data)). Qed.

Lemma startswith_app prefix : forall s,
  startswith prefix s = true -> exists rest, s = prefix ++ rest.
Proof.
  induction prefix as [|p prefix IH]; intros s; [by exists s|].
  destruct s as [|c s]; [done|]. unfold startswith; fold startswith.
  intros [->%N.eqb_eq [rest ->]%IH]%andb_prop. by exists rest.
Qed.

Lemma startswith_prefix prefix rest : startswith prefix (prefix ++ rest) = true.
Proof.
  induction prefix as [|p prefix IH]; [done|].
  cbn [app]. unfold startswith; fold startswith. by rewrite N.eqb_refl, IH.
Qed.

(** No base64 text starts with the marker of an error. *)
Lemma b64_not_error out :
  forallb is_b64_char out = true -> startswith (cp "Error: ") out = false.
Proof.
  intros Hchars. destruct (startswith _ out) eqn:Hs; [|done].
  apply startswith_app in Hs as [rest ->].
  rewrite forallb_app in Hchars. by apply andb_prop in Hchars as [? _].
Qed.

End PyFacts.

(** ** [image_to_base64.py] *)

Section ImageToBase64Facts.
Import Re Fence Py ImageToBase64.
Context `{Pillow}.
Implicit Types (v p : str) (request : ImageConversionRequest).

Lemma validate_image_path_unfold v :
  validate_image_path v =
  if all_whitespace v then Raise (ValueError (cp "Image path cannot be empty"))
  else Ok (strip v).
Proof.
  unfold validate_image_path.
  destruct (all_whitespace v) eqn:Hws.
  - apply strip_nil in Hws. rewrite Hws.
    by destruct (bool_decide (v = [])).
  - assert (strip v <> []) as Hstrip
        by (rewrite strip_nil; congruence).
    rewrite (bool_decide_eq_false_2 (strip v = [])) by done.
    rewrite bool_decide_eq_false_2; [done|]. by intros ->.
Qed.

(** X7.  The validator of [image_path] rejects exactly the blank paths, the
    empty one and those of white space only, and otherwise returns the path
    without its leading and trailing white space: what it returns is not
    empty, and starts and ends with a character that is not white space. *)
Theorem validate_image_path_strips_or_rejects v :
  (all_whitespace v = true /\
   validate_image_path v = Raise (ValueError (cp "Image path cannot be empty"))) \/
  (exists lead p trail c z,
     validate_image_path v = Ok p /\
     v = lead ++ p ++ trail /\
     all_whitespace lead = true /\ all_whitespace trail = true /\
     head p = Some c /\ last p = Some z /\
     is_whitespace c = false /\ is_whitespace z = false).
Proof.
  rewrite validate_image_path_unfold.
  destruct (all_whitespace v) eqn:Hws; [by left|right].
  destruct (strip_spec v) as (lead & trail & Heq & Hlead & Htrail & Hends).
  destruct Hends as [Hnil%strip_nil|(c & z & Hc & Hz & Hcw & Hzw)]; [congruence|].
  by exists lead, (strip v), trail, c, z.
Qed.

Lemma validate_image_path_fixed v p :
  validate_image_path v = Ok p -> validate_image_path p = Ok p.
Proof.
  rewrite (validate_image_path_unfold v).
  destruct (all_whitespace v) eqn:Hws; [done|]. intros [= <-].
  destruct (strip_spec v) as (_ & _ & _ & _ & _ & Hends).
  destruct Hends as [Hnil%strip_nil|(c & z & Hc & Hz & Hcw & Hzw)]; [congruence|].
  rewrite validate_image_path_unfold.
  destruct (all_whitespace (strip v)) eqn:Hws'.
  - apply strip_nil in Hws'. rewrite (strip_fixed _ c z) in Hws' by done.
    by rewrite Hws' in Hc.
  - by rewrite (strip_fixed _ c z).
Qed.

(** X8.  A conversion request that exists is well formed: its path came
    from the given one through the validator, so it is not blank and has no
    white space around it, and validating it again changes nothing; its
    format is one of the five names, JPEG when none was given. *)
Theorem conversion_request_is_well_formed
        (image_path0 format0 : option str) request :
  new_ImageConversionRequest image_path0 format0 = Ok request ->
  (exists v, image_path0 = Some v /\
             validate_image_path v = Ok (image_path request)) /\
  validate_image_path (image_path request) = Ok (image_path request) /\
  In (format request) formats /\
  format request = default (cp "JPEG") format0.
Proof.
  unfold new_ImageConversionRequest.
  destruct image_path0 as [v|]; [|by destruct format0 as [f|]; [case_bool_decide|]].
  destruct (validate_image_path v) as [p|e] eqn:Hv;
    [|by destruct format0 as [f|]; [case_bool_decide|]].
  assert (Hstable : validate_image_path p = Ok p)
    by (by apply validate_image_path_fixed in Hv).
  destruct format0 as [f|].
  - case_bool_decide as Hf; [|done]. intros Hr. injection Hr as <-.
    cbn [image_path format default from_option].
    split; [by exists v|]. split; [done|]. split; [by apply list_elem_of_In|done].
  - intros Hr. injection Hr as <-.
    cbn [image_path format default from_option].
    split; [by exists v|]. split; [done|]. split; [by left|done].
Qed.

(** X9.  A conversion request is accepted exactly when a path is given that
    is not blank and the format, if given, is one of JPEG, PNG, GIF, BMP and
    TIFF, spelt that way; anything else is a [ValidationError] that lists
    what is wrong with each field. *)
Theorem conversion_request_accepted_or_rejected
        (image_path0 format0 : option str) :
  ((exists v, image_path0 = Some v /\ all_whitespace v = false) /\
   (forall f, format0 = Some f -> In f formats) /\
   exists request, new_ImageConversionRequest image_path0 format0 = Ok request) \/
  ((image_path0 = None \/
    (exists v, image_path0 = Some v /\ all_whitespace v = true) \/
    (exists f, format0 = Some f /\ ~ In f formats)) /\
   exists errors,
     errors <> [] /\
     new_ImageConversionRequest image_path0 format0
     = Raise (ValidationError (request_error_str errors))).
Proof.
  unfold new_ImageConversionRequest.
  destruct image_path0 as [v|].
  2: { right. split; [by left|].
       destruct format0 as [f|]; [case_bool_decide|];
         (eexists; split; [|reflexivity]; done). }
  rewrite validate_image_path_unfold.
  destruct (all_whitespace v) eqn:Hws.
  { right. split; [right; left; by exists v|].
    destruct format0 as [f|]; [case_bool_decide|];
         (eexists; split; [|reflexivity]; done). }
  destruct format0 as [f|]; [case_bool_decide as Hf|].
  - left. split; [by exists v|]. split; [|by eexists].
    intros f' [= <-]. by apply list_elem_of_In.
  - right. split; [|eexists; split; [|reflexivity]; done].
    right. right. exists f. split; [done|].
    by rewrite <- list_elem_of_In.
  - left. split; [by exists v|]. split; [done|by eexists].
Qed.

(** X10.  [image_to_base64] reports failure in band, and the two cases
    cannot be confused: when opening or saving the image raises, the text
    starts with the marker [Error: ]; otherwise it is the base64 text of
    the saved bytes, which never starts with that marker, holds only
    characters of the base64 alphabet and padding, and is four characters
    for every three bytes, rounded up. *)
Theorem image_to_base64_marks_errors image_path0 (format0 : option str) :
  (startswith (cp "Error: ") (image_to_base64 image_path0 format0) = true /\
   exists e,
     Image_open_path image_path0 = Raise e \/
     exists img, Image_open_path image_path0 = Ok img /\
                 Image_save img (default (cp "JPEG") format0) = Raise e) \/
  (startswith (cp "Error: ") (image_to_base64 image_path0 format0) = false /\
   exists img data,
     Image_open_path image_path0 = Ok img /\
     Image_save img (default (cp "JPEG") format0) = Ok data /\
     image_to_base64 image_path0 format0 = b64encode data /\
     forallb is_b64_char (image_to_base64 image_path0 format0) = true /\
     length (image_to_base64 image_path0 format0)
     = (4 * ((length data + 2) / 3))%nat).
Proof.
  unfold image_to_base64. cbv zeta.
  change (default default_format format0) with (default (cp "JPEG") format0).
  destruct (Image_open_path image_path0) as [img|e].
  - destruct (Image_save img (default (cp "JPEG") format0)) as [data|e] eqn:Hsave.
    + right. split; [apply b64_not_error, b64encode_chars|].
      exists img, data. do 3 (split; [done|]).
      split; [apply b64encode_chars|apply b64encode_length].
    + left. split; [|exists e; right; by exists img].
      destruct (is_file_not_found e).
      * apply (startswith_prefix (cp "Error: ")
                 (cp "Image file not found at " ++ image_path0)).
      * apply (startswith_prefix (cp "Error: ")
                 (cp "Could not convert image to base64: " ++ exn_str e)).
  - left. split; [|exists e; by left].
    destruct (is_file_not_found e).
    + apply (startswith_prefix (cp "Error: ")
               (cp "Image file not found at " ++ image_path0)).
    + apply (startswith_prefix (cp "Error: ")
               (cp "Could not convert image to base64: " ++ exn_str e)).
Qed.

(** X11.  The two conversion functions agree: the validated one succeeds
    exactly when the plain one returns base64 text, with the same text, and
    when it fails the plain one returns the same message behind [Error: ]. *)
Theorem conversion_functions_agree request :
  (success (image_to_base64_validated request) = true /\
   base64_string (image_to_base64_validated request)
   = Some (image_to_base64 (image_path request) (Some (format request))) /\
   error_message (image_to_base64_validated request) = None /\
   startswith (cp "Error: ")
     (image_to_base64 (image_path request) (Some (format request))) = false) \/
  (success (image_to_base64_validated request) = false /\
   base64_string (image_to_base64_validated request) = None /\
   exists msg,
     error_message (image_to_base64_validated request) = Some msg /\
     image_to_base64 (image_path request) (Some (format request))
     = cp "Error: " ++ msg).
Proof.
  unfold image_to_base64_validated, image_to_base64. cbv zeta.
  cbn [default from_option].
  destruct (Image_open_path (image_path request)) as [img|e].
  - destruct (Image_save img _) as [data|e].
    + left. do 3 (split; [done|]). apply b64_not_error, b64encode_chars.
    + right. destruct (is_file_not_found e); do 2 (split; [done|]); by eexists.
  - right. destruct (is_file_not_found e); do 2 (split; [done|]); by eexists.
Qed.

End ImageToBase64Facts.

(** ** The command line of [qwen.py] *)

Section CliFacts.
Import ImageToBase64 Cli.
Context `{Libraries} `{Pillow}.
Implicit Types (args : Namespace) (done : list action).

(** The outcome and the actions of [main], by what the libraries answer. *)
Lemma main_unfold args done :
  main args done =
  let loading :=
    [Printed (cp "[*] Loading model: " ++ model args ++ cp "...");
     Called (LoadCalled (model args))] in
  match load (model args) with
  | Raise e =>
      (Ok tt, done ++ loading
              ++ [Printed (cp "[!] Error loading model: " ++ exn_str e)])
  | Ok (model_obj, processor) =>
      let opening :=
        loading ++ [Printed (cp "[+] Model loaded successfully.");
                    ImageOpened (image args)] in
      match Image_open_path (image args) with
      | Raise e =>
          (Ok tt,
           done ++ opening
           ++ [Printed (if is_file_not_found e then
                          cp "[!] Image file not found: " ++ image args
                        else cp "[!] Error opening image: " ++ exn_str e)])
      | Ok img =>
          let messages := messages_for img (prompt args) in
          match load_config (model args) with
          | Raise e =>
              (Raise e, done ++ opening ++ [Called (LoadConfigCalled (model args))])
          | Ok config =>
              let templating :=
                opening ++ [Called (LoadConfigCalled (model args));
                            Called (ChatTemplateCalled messages)] in
              match apply_chat_template processor config messages with
              | Raise e => (Raise e, done ++ templating)
              | Ok prompt_text =>
                  let generating :=
                    templating
                    ++ [Printed (Qwen.newline ++ cp "[*] Generating response...");
                        Called (GenerateCalled 1000 Api.default_temperature)] in
                  match generate model_obj processor prompt_text
                                 1000 Api.default_temperature with
                  | Raise e =>
                      (Ok tt,
                       done ++ generating
                       ++ [Printed (cp "[!] Error during generation: "
                                    ++ exn_str e)])
                  | Ok response =>
                      (Ok tt,
                       done ++ generating
                       ++ [Printed (Qwen.newline ++ Qwen.newline
                                    ++ cp "--- Model Response ---");
                           Printed (response_str response);
                           Printed (cp "----------------------")])
                  end
              end
          end
      end
  end.
Proof.
  unfold main, bind, try_except, print, act, lift, ret,
    generate_max_tokens, generate_temperature.
  cbv zeta.
  destruct (load (model args)) as [[model_obj processor]|e];
    [|by rewrite <- !app_assoc].
  destruct (Image_open_path (image args)) as [img|e];
    [|destruct (is_file_not_found e); by rewrite <- !app_assoc].
  destruct (load_config (model args)) as [config|e];
    [|by rewrite <- !app_assoc].
  destruct (apply_chat_template _ _ _) as [prompt_text|e];
    [|by rewrite <- !app_assoc].
  destruct (generate _ _ _ _ _) as [response|e]; by rewrite <- !app_assoc.
Qed.

(** X12.  The command line accepts [--max-tokens] and [--temp] and never
    uses them: [main] does the same whatever their values, and every call of
    [generate] it makes has [max_tokens = 1000] and [temperature = 0.7]. *)
Theorem main_ignores_max_tokens_and_temp args n t done :
  main args done
  = main {| model := model args; image := image args; prompt := prompt args;
            max_tokens := n; temp := t |} done /\
  exists actions,
    snd (main args done) = done ++ actions /\
    forall n' t', In (Called (GenerateCalled n' t')) actions ->
                  n' = 1000%Z /\ t' = Api.default_temperature.
Proof.
  split; [reflexivity|].
  rewrite main_unfold. cbv zeta.
  destruct (load (model args)) as [[model_obj processor]|e].
  2: { eexists. split; [done|]. intros n' t' Hin. cbn [app In] in Hin.
       repeat destruct Hin as [Hin|Hin]; by try discriminate. }
  destruct (Image_open_path (image args)) as [img|e].
  2: { eexists. split; [done|]. intros n' t' Hin. cbn [app In] in Hin.
       repeat destruct Hin as [Hin|Hin]; by try discriminate. }
  destruct (load_config (model args)) as [config|e].
  2: { eexists. split; [done|]. intros n' t' Hin. cbn [app In] in Hin.
       repeat destruct Hin as [Hin|Hin]; by try discriminate. }
  destruct (apply_chat_template _ _ _) as [prompt_text|e].
  2: { eexists. split; [done|]. intros n' t' Hin. cbn [app In] in Hin.
       repeat destruct Hin as [Hin|Hin]; by try discriminate. }
  destruct (generate _ _ _ _ _) as [response|e];
    (eexists; split; [done|]); intros n' t' Hin; cbn [app In] in Hin;
    repeat destruct Hin as [Hin|Hin]; try discriminate; try done;
    by injection Hin as <- <-.
Qed.

(** X13.  Unlike the detection step of the API, [main] lets exceptions
    escape: it raises exactly when the model and the image were loaded and
    [load_config] or [apply_chat_template] raises, and then with that
    exception; a failure of [load], [Image.open] or [generate] is printed
    and [main] returns. *)
Theorem main_raises_iff args done e :
  fst (main args done) = Raise e <->
  exists model_obj processor img,
    load (model args) = Ok (model_obj, processor) /\
    Image_open_path (image args) = Ok img /\
    (load_config (model args) = Raise e \/
     exists config,
       load_config (model args) = Ok config /\
       apply_chat_template processor config (messages_for img (prompt args))
       = Raise e).
Proof.
  rewrite main_unfold. cbv zeta. split.
  - destruct (load (model args)) as [[model_obj processor]|e0]; [|done].
    destruct (Image_open_path (image args)) as [img|e0]; [|done].
    destruct (load_config (model args)) as [config|e0].
    + destruct (apply_chat_template _ _ _) as [prompt_text|e0] eqn:Htemplate.
      * by destruct (generate _ _ _ _ _).
      * intros [= ->]. exists model_obj, processor, img.
        do 2 (split; [done|]). right. by exists config.
    + intros [= ->]. exists model_obj, processor, img.
      do 2 (split; [done|]). by left.
  - intros (model_obj & processor & img & -> & -> & [->|(config & -> & ->)]);
      done.
Qed.

(** X14.  [main] works in a fixed order and stops at the first failure.
    It calls [load]; only if that succeeded it opens the image file; only if
    that succeeded too it calls [load_config]; only after that succeeded
    [apply_chat_template], on the messages for that image and the prompt of
    the command line; and only after that succeeded [generate], once.  In
    each case these are all the calls it makes. *)
Theorem main_calls_in_order args done :
  exists actions,
    snd (main args done) = done ++ actions /\
    (forall e,
       load (model args) = Raise e ->
       calls actions = [Called (LoadCalled (model args))]) /\
    (forall model_obj processor,
       load (model args) = Ok (model_obj, processor) ->
       (forall e,
          Image_open_path (image args) = Raise e ->
          calls actions
          = [Called (LoadCalled (model args)); ImageOpened (image args)]) /\
       (forall img,
          Image_open_path (image args) = Ok img ->
          (forall e,
             load_config (model args) = Raise e ->
             calls actions
             = [Called (LoadCalled (model args)); ImageOpened (image args);
                Called (LoadConfigCalled (model args))]) /\
          (forall config,
             load_config (model args) = Ok config ->
             (forall e,
                apply_chat_template processor config
                  (messages_for img (prompt args)) = Raise e ->
                calls actions
                = [Called (LoadCalled (model args)); ImageOpened (image args);
                   Called (LoadConfigCalled (model args));
                   Called (ChatTemplateCalled (messages_for img (prompt args)))]) /\
             (forall prompt_text,
                apply_chat_template processor config
                  (messages_for img (prompt args)) = Ok prompt_text ->
                calls actions
                = [Called (LoadCalled (model args)); ImageOpened (image args);
                   Called (LoadConfigCalled (model args));
                   Called (ChatTemplateCalled (messages_for img (prompt args)));
                   Called (GenerateCalled 1000 Api.default_temperature)])))).
Proof.
  rewrite main_unfold. cbv zeta.
  destruct (load (model args)) as [[model_obj processor]|e] eqn:Hload.
  2: { eexists. split; [done|]. split; [by intros ? [= <-]|done]. }
  destruct (Image_open_path (image args)) as [img|e] eqn:Hopen.
  2: { eexists. split; [done|]. split; [done|].
       intros ? ? [= <- <-]. split; [by intros ? [= <-]|done]. }
  destruct (load_config (model args)) as [config|e] eqn:Hconfig.
  2: { eexists. split; [done|]. split; [done|].
       intros ? ? [= <- <-]. split; [done|]. intros ? [= <-].
       split; [by intros ? [= <-]|done]. }
  destruct (apply_chat_template _ _ _) as [prompt_text|e] eqn:Htemplate.
  2: { eexists. split; [done|]. split; [done|].
       intros ? ? [= <- <-]. split; [done|]. intros ? [= <-].
       split; [done|]. intros ? [= <-]. rewrite Htemplate.
       split; [by intros ? [= <-]|done]. }
  destruct (generate _ _ _ _ _) as [response|e];
    (eexists; split; [done|]); (split; [done|]);
    intros ? ? [= <- <-]; (split; [done|]); intros ? [= <-];
    (split; [done|]); intros ? [= <-]; rewrite Htemplate;
    (split; [done|]); by intros ? [= <-].
Qed.

End CliFacts.

(** ** The properties above on sample inputs *)

Section MoreWitnesses.
Import Fence Json Api Contract.

Lemma fenced_reply_is_decoded_witness :
  Qwen.parse_objects_from_response Demo.chatty_reply
  = Ok (JList [JDict Sample.watch]).
Proof.
  apply (proj1 (fenced_reply_is_decoded (cp "Here you are:" ++ [10]) [10]
                  Sample.array_text [10] ([10] ++ cp "Done [1].")
                  eq_refl (ex_intro _ Sample.record_text eq_refl)
                  eq_refl eq_refl eq_refl)).
  vm_compute. reflexivity.
Defined.

Lemma reply_without_brackets_gives_empty_list_witness :
  Qwen.parse_objects_from_response (cp "I cannot see any object.")
  = Ok (JList []).
Proof.
  apply (reply_without_brackets_gives_empty_list (cp "I cannot see any object.")).
  left. intros Hin. vm_compute in Hin. intuition discriminate.
Defined.

Lemma first_flat_array_is_decoded_witness :
  Qwen.parse_objects_from_response (cp "Found [1, 2] and [3]")
  = Ok (JList [JInt 1; JInt 2]).
Proof.
  destruct (first_flat_array_is_decoded (cp "Found ") (cp "1, 2") (cp " and [3]"))
    as [Hok _].
  - reflexivity.
  - intros Hin. vm_compute in Hin. intuition discriminate.
  - reflexivity.
  - reflexivity.
  - apply Hok. vm_compute. reflexivity.
Defined.

Lemma fenced_reply_reaches_the_client_witness :
  fst (detect_objects (H := Sample.libraries) Sample.upload None Sample.empty_world)
  = Ok {| success := true; objects := Some [Sample.watch];
          response_text := Some Sample.fenced_reply;
          error_message := None |}.
Proof.
  apply (fenced_reply_reaches_the_client (H := Sample.libraries)
           Sample.upload None Sample.empty_world Sample.png tt tt tt
           (Qwen.messages_for Sample.png Qwen.default_prompt)
           Sample.fenced_reply [] [10] Sample.array_text [10] [] [Sample.watch]).
  - repeat split.
  - reflexivity.
  - reflexivity.
  - reflexivity.
  - reflexivity.
  - reflexivity.
  - reflexivity.
  - exists Sample.record_text. reflexivity.
  - reflexivity.
  - reflexivity.
  - reflexivity.
  - vm_compute. reflexivity.
Defined.

Lemma non_object_items_are_reported_witness :
  fst (detect_objects (H := Demo.coordinates_libraries)
                      Sample.upload None Sample.empty_world)
  = Ok {| success := false; objects := None; response_text := None;
          error_message :=
            Some (cp "Error during object detection: "
                  ++ cp "4 validation errors for ObjectDetectionResult") |} /\
  http_status (fst (detect_objects (H := Demo.coordinates_libraries)
                                   Sample.upload None Sample.empty_world))
  = 200%Z.
Proof.
  apply (non_object_items_are_reported (H := Demo.coordinates_libraries)
           Sample.upload None Sample.empty_world Sample.png tt tt tt
           (Qwen.messages_for Sample.png Qwen.default_prompt)
           Sample.multiline_reply
           [JInt 10; JInt 20; JInt 30; JInt 40] (JInt 10)).
  - repeat split.
  - reflexivity.
  - reflexivity.
  - reflexivity.
  - reflexivity.
  - vm_compute. reflexivity.
  - left. reflexivity.
  - reflexivity.
Defined.

Lemma conversion_request_is_well_formed_witness :
  (exists v, Some (cp "  watch.png ") = Some v /\
             ImageToBase64.validate_image_path v = Ok (cp "watch.png")) /\
  ImageToBase64.validate_image_path (cp "watch.png") = Ok (cp "watch.png") /\
  In (cp "JPEG") ImageToBase64.formats /\
  cp "JPEG" = default (cp "JPEG") None.
Proof.
  apply (conversion_request_is_well_formed (H := Demo.pillow)
           (Some (cp "  watch.png ")) None
           {| ImageToBase64.image_path := cp "watch.png";
              ImageToBase64.format := cp "JPEG" |}).
  vm_compute. reflexivity.
Defined.

End MoreWitnesses.
